(** * Hybrid recommendation engine: a shallow embedding of
      [backend/app/ml/recommender.py], [backend/app/ml/train.py] and the
      [/train] route of [backend/app/api/routes.py].

    Further down: the chunked insertion of
    [backend/scripts/ingest_data.py], the sanitising of settings in
    [backend/app/db/redis.py] and [backend/app/db/mongodb.py], and the
    recommendations route of [backend/app/api/routes.py].

    Conventions of the embedding.
    - External identifiers (user keys, stock codes) are [string]s; internal
      indices are [Z], because the code lets [-1] flow through them
      ([fillna(-1)], the labels FAISS pads with).
    - Floating-point numbers are exact rationals [Q]; rounding, infinities
      and NaN are outside the model.
    - Memory is not modelled: an allocation whose size NumPy accepts
      succeeds, so MemoryError is outside the model.
    - Python dictionaries are [gmap]s.  A data frame is the list of the
      records [pd.DataFrame] was built from, as in [train_model_task]: no
      record means no column, and a field that no record has means no
      such column either.
    - A method of [HybridRecommender] is a computation in the monad [M]:
      it receives the world (the singleton object and the model directory
      on disk), may mutate it, and either returns or raises.  What was
      mutated before a raise stays mutated.
    - Third-party numerical routines whose results are not determined by
      this repository (np.log1p, np.argsort, TruncatedSVD, the sentence
      encoder) are the fields of a [Libraries] record. *)

From Stdlib Require Import ZArith QArith Lia Sorted Permutation Ascii.
From stdpp Require Import gmap strings list fin_maps sorting.

(** ** Exceptions and results *)

Inductive exn :=
| ValueError | IndexError | KeyError | AttributeError | AssertionError
| RuntimeError.

Inductive result (A : Type) :=
| Ok (a : A)
| Raise (e : exn).
Arguments Ok {A} a.
Arguments Raise {A} e.

(** ** Python and NumPy primitives *)

Module Py.

(** [enumerate(l)], counting from [i]. *)
Fixpoint enumerate_from {A} (i : Z) (l : list A) : list (Z * A) :=
  match l with
  | [] => []
  | x :: l' => (i, x) :: enumerate_from (i + 1) l'
  end.

Definition enumerate {A} (l : list A) : list (Z * A) := enumerate_from 0 l.

(** A dict comprehension [{k: v for ...}]: pairs are inserted in order,
    a later pair overwrites an earlier one with the same key. *)
Definition dict_of {K V} `{Countable K} (kvs : list (K * V)) : gmap K V :=
  foldl (fun m kv => <[kv.1 := kv.2]> m) ∅ kvs.

(** [l[:k]]: a negative [k] counts from the end. *)
Definition slice_to {A} (l : list A) (k : Z) : list A :=
  if (0 <=? k)%Z then take (Z.to_nat k) l
  else take (length l - Z.to_nat (- k)) l.

(** [a[i]] on a sequence: negative indices wrap once, anything else out
    of range raises IndexError. *)
Definition getitem {A} (a : list A) (i : Z) : result A :=
  let n := Z.of_nat (length a) in
  let j := if (i <? 0)%Z then (i + n)%Z else i in
  if (j <? 0)%Z then Raise IndexError
  else match a !! Z.to_nat j with
       | Some x => Ok x
       | None => Raise IndexError
       end.

(** [Series.unique()]: distinct values in order of first appearance. *)
Fixpoint unique_from (seen : gset string) (l : list string) : list string :=
  match l with
  | [] => []
  | x :: l' =>
      if decide (x ∈ seen) then unique_from seen l'
      else x :: unique_from ({[x]} ∪ seen) l'
  end.

Definition unique (l : list string) : list string := unique_from ∅ l.

(** Truth value of a string: empty is false. *)
Definition truthy (s : string) : bool := negb (String.eqb s EmptyString).

End Py.

Module Np.

Definition sum (l : list Q) : Q := foldr Qplus 0%Q l.

(** Inner product of two vectors. *)
Definition inner (v w : list Q) : Q := sum (zip_with Qmult v w).

(** Entry [a[i]] for a position [i] known to be in range. *)
Definition at_ (a : list Q) (i : Z) : Q := default 0%Q (a !! Z.to_nat i).

(** Column [i] of a matrix stored as a list of rows. *)
Definition column (M : list (list Q)) (i : nat) : list Q :=
  (fun row => default 0%Q (row !! i)) <$> M.

Definition n_columns (M : list (list Q)) : nat := length (hd [] M).

(** [np.dot(v, M)] for a vector [v] of shape (r,) and a matrix [M] of
    shape (r, n): the vector of the [n] inner products of [v] with the
    columns of [M]; misaligned shapes raise ValueError. *)
Definition dot (v : list Q) (M : list (list Q)) : result (list Q) :=
  if decide (length v = length M)
  then Ok ((fun i => inner v (column M i)) <$> seq 0 (n_columns M))
  else Raise ValueError.

(** Insertion of an (index, value) pair into a list ordered by value;
    the new pair goes in front of the pairs with an equal value. *)
Fixpoint insert_by_value (x : Z * Q) (l : list (Z * Q)) : list (Z * Q) :=
  match l with
  | [] => [x]
  | y :: l' =>
      if Qle_bool x.2 y.2 then x :: y :: l' else y :: insert_by_value x l'
  end.

(** Stable ascending sort of (index, value) pairs by value. *)
Definition sort_by_value (l : list (Z * Q)) : list (Z * Q) :=
  foldr insert_by_value [] l.

(** The order NumPy's scalar sort produces on short arrays (insertion
    sort): ascending, equal values in increasing position. *)
Definition stable_argsort (a : list Q) : list Z :=
  fst <$> sort_by_value (Py.enumerate a).

(** What the documentation of [np.argsort] promises for the default
    kind: the positions of [a], arranged so that the values ascend.  The
    relative order of equal values is not promised. *)
Definition argsort_contract (argsort : list Q → list Z) : Prop :=
  ∀ a, argsort a ≡ₚ (Z.of_nat <$> seq 0 (length a)) ∧
       StronglySorted (fun i j => (at_ a i <= at_ a j)%Q) (argsort a).

End Np.

(** ** scipy.sparse matrices *)

(** A matrix given in coordinate form: (row, column, value) triples and a
    shape.  Triples with the same coordinates add up, which is how
    [csr_matrix((data, (rows, cols)), shape)] reads them. *)
Record csr_matrix := {
  entries : list (Z * Z * Q);
  shape : nat * nat;
}.

Definition cell (X : csr_matrix) (r c : Z) : Q :=
  Np.sum (snd <$> filter (fun e => e.1 = (r, c)) (entries X)).

Definition in_shape (sh : nat * nat) (e : Z * Z * Q) : bool :=
  (0 <=? e.1.1)%Z && (e.1.1 <? Z.of_nat sh.1)%Z &&
  (0 <=? e.1.2)%Z && (e.1.2 <? Z.of_nat sh.2)%Z.

(** The constructor rejects coordinates outside the shape. *)
Definition mk_csr_matrix (es : list (Z * Z * Q)) (sh : nat * nat)
  : result csr_matrix :=
  if forallb (in_shape sh) es then Ok {| entries := es; shape := sh |}
  else Raise ValueError.

(** ** FAISS: the flat L2 index *)

Module Faiss.

Record IndexFlatL2 := {
  d : nat;
  xb : list (list Q);
}.

Definition new (dimension : nat) : IndexFlatL2 :=
  {| d := dimension; xb := [] |}.

(** [index.add(x)]: every row must have the dimension of the index. *)
Definition add (ix : IndexFlatL2) (x : list (list Q)) : result IndexFlatL2 :=
  if forallb (fun v => length v =? d ix) x
  then Ok {| d := d ix; xb := xb ix ++ x |}
  else Raise AssertionError.

(** Squared Euclidean distance. *)
Definition fvec_L2sqr (x y : list Q) : Q :=
  Np.sum (zip_with (fun a b => ((a - b) * (a - b))%Q) x y).

Definition FLT_MAX : Q := 340282346638528859811704183484516925440 # 1.

(** [np.empty((1, k), dtype)] with elements of [itemsize] bytes: NumPy
    refuses an array whose size in bytes does not fit a signed 64-bit
    index. *)
Definition np_empty (k itemsize : Z) : result unit :=
  if (k * itemsize <? 2 ^ 63)%Z then Ok tt else Raise ValueError.

(** [index.search(q, k)] for one query.  The wrapper asserts the
    dimension and [k > 0] and creates the result arrays, float32
    distances and int64 labels; then the distance to every stored vector
    is computed, the [k] smallest are kept in ascending order (equal
    distances in increasing label order), and the row is padded to
    length [k] with label [-1]. *)
Definition search (ix : IndexFlatL2) (q : list Q) (k : Z)
  : result (list (Z * Q)) :=
  if decide (length q = d ix) then
    if (0 <? k)%Z then
      match np_empty k 4, np_empty k 8 with
      | Ok _, Ok _ =>
          let best :=
            take (Z.to_nat k)
                 (Np.sort_by_value (Py.enumerate (fvec_L2sqr q <$> xb ix))) in
          Ok (best ++ replicate (Z.to_nat k - length best) ((-1)%Z, FLT_MAX))
      | Raise e, _ | Ok _, Raise e => Raise e
      end
    else Raise AssertionError
  else Raise AssertionError.

End Faiss.

(** ** Third-party numerical routines *)

(** The fitted state of sklearn's [TruncatedSVD]: [components_] exists
    only after a successful fit. *)
Record TruncatedSVD := {
  n_components : nat;
  components_ : option (list (list Q));
}.

Record Libraries := {
  (** [np.log1p] on a positive integer quantity *)
  log1p : Z → Q;
  (** [np.argsort] with the default kind *)
  argsort : list Q → list Z;
  (** [TruncatedSVD(n_components, random_state=42).fit_transform(X)]:
      the pair (transformed rows, [components_]), or the exception *)
  fit_transform : nat → csr_matrix → result (list (list Q) * list (list Q));
  (** the sentence encoder, one vector per text *)
  encode : string → list Q;
}.

(** ** Data frames *)

(** A row of the [transactions] collection, projected on the three
    columns training reads. *)
Record Transaction := {
  user_id : string;
  stock_code : string;
  quantity : Z;
}.

(** A row of the [products] collection, projected on [_id] and
    [description]; [None] is a document without a description. *)
Record Product := {
  _id : string;
  description : option string;
}.

(** ** The recommender object and the model directory *)

Record HybridRecommender := {
  svd_model : option TruncatedSVD;
  sentence_model : bool;                       (* loaded, or None *)
  faiss_index : option Faiss.IndexFlatL2;
  product_map : gmap Z string;                 (* internal index -> StockCode *)
  reverse_product_map : gmap string Z;         (* StockCode -> internal index *)
  product_data : gmap string string;           (* StockCode -> description *)
  user_map : gmap string Z;                    (* UserID -> internal index *)
  reverse_user_map : gmap Z string;            (* internal index -> UserID *)
  user_factors : option (list (list Q));       (* None: attribute not set *)
  initialized : bool;
}.

(** [HybridRecommender.__init__] *)
Definition __init__ : HybridRecommender := {|
  svd_model := None;
  sentence_model := false;
  faiss_index := None;
  product_map := ∅;
  reverse_product_map := ∅;
  product_data := ∅;
  user_map := ∅;
  reverse_user_map := ∅;
  user_factors := None;
  initialized := false;
|}.

Definition set_svd_model v (s : HybridRecommender) : HybridRecommender :=
  {| svd_model := v; sentence_model := sentence_model s;
     faiss_index := faiss_index s; product_map := product_map s;
     reverse_product_map := reverse_product_map s;
     product_data := product_data s; user_map := user_map s;
     reverse_user_map := reverse_user_map s; user_factors := user_factors s;
     initialized := initialized s |}.

Definition set_sentence_model v (s : HybridRecommender) : HybridRecommender :=
  {| svd_model := svd_model s; sentence_model := v;
     faiss_index := faiss_index s; product_map := product_map s;
     reverse_product_map := reverse_product_map s;
     product_data := product_data s; user_map := user_map s;
     reverse_user_map := reverse_user_map s; user_factors := user_factors s;
     initialized := initialized s |}.

Definition set_faiss_index v (s : HybridRecommender) : HybridRecommender :=
  {| svd_model := svd_model s; sentence_model := sentence_model s;
     faiss_index := v; product_map := product_map s;
     reverse_product_map := reverse_product_map s;
     product_data := product_data s; user_map := user_map s;
     reverse_user_map := reverse_user_map s; user_factors := user_factors s;
     initialized := initialized s |}.

Definition set_product_map v (s : HybridRecommender) : HybridRecommender :=
  {| svd_model := svd_model s; sentence_model := sentence_model s;
     faiss_index := faiss_index s; product_map := v;
     reverse_product_map := reverse_product_map s;
     product_data := product_data s; user_map := user_map s;
     reverse_user_map := reverse_user_map s; user_factors := user_factors s;
     initialized := initialized s |}.

Definition set_reverse_product_map v (s : HybridRecommender)
  : HybridRecommender :=
  {| svd_model := svd_model s; sentence_model := sentence_model s;
     faiss_index := faiss_index s; product_map := product_map s;
     reverse_product_map := v;
     product_data := product_data s; user_map := user_map s;
     reverse_user_map := reverse_user_map s; user_factors := user_factors s;
     initialized := initialized s |}.

Definition set_product_data v (s : HybridRecommender) : HybridRecommender :=
  {| svd_model := svd_model s; sentence_model := sentence_model s;
     faiss_index := faiss_index s; product_map := product_map s;
     reverse_product_map := reverse_product_map s;
     product_data := v; user_map := user_map s;
     reverse_user_map := reverse_user_map s; user_factors := user_factors s;
     initialized := initialized s |}.

Definition set_user_map v (s : HybridRecommender) : HybridRecommender :=
  {| svd_model := svd_model s; sentence_model := sentence_model s;
     faiss_index := faiss_index s; product_map := product_map s;
     reverse_product_map := reverse_product_map s;
     product_data := product_data s; user_map := v;
     reverse_user_map := reverse_user_map s; user_factors := user_factors s;
     initialized := initialized s |}.

Definition set_reverse_user_map v (s : HybridRecommender) : HybridRecommender :=
  {| svd_model := svd_model s; sentence_model := sentence_model s;
     faiss_index := faiss_index s; product_map := product_map s;
     reverse_product_map := reverse_product_map s;
     product_data := product_data s; user_map := user_map s;
     reverse_user_map := v; user_factors := user_factors s;
     initialized := initialized s |}.

Definition set_user_factors v (s : HybridRecommender) : HybridRecommender :=
  {| svd_model := svd_model s; sentence_model := sentence_model s;
     faiss_index := faiss_index s; product_map := product_map s;
     reverse_product_map := reverse_product_map s;
     product_data := product_data s; user_map := user_map s;
     reverse_user_map := reverse_user_map s; user_factors := v;
     initialized := initialized s |}.

Definition set_initialized v (s : HybridRecommender) : HybridRecommender :=
  {| svd_model := svd_model s; sentence_model := sentence_model s;
     faiss_index := faiss_index s; product_map := product_map s;
     reverse_product_map := reverse_product_map s;
     product_data := product_data s; user_map := user_map s;
     reverse_user_map := reverse_user_map s; user_factors := user_factors s;
     initialized := v |}.

(** The three files under [settings.MODEL_PATH]; [None] is a missing
    file. *)
Record SvdPickle := {
  pk_model : option TruncatedSVD;
  pk_user_factors : list (list Q);
  pk_user_map : gmap string Z;
  pk_reverse_user_map : gmap Z string;
}.

Record MappingsPickle := {
  pk_product_map : gmap Z string;
  pk_reverse_product_map : gmap string Z;
  pk_product_data : gmap string string;
}.

Record Disk := {
  svd_model_pkl : option SvdPickle;
  product_index : option Faiss.IndexFlatL2;
  mappings_pkl : option MappingsPickle;
}.

Definition empty_disk : Disk :=
  {| svd_model_pkl := None; product_index := None; mappings_pkl := None |}.

Record World := {
  self : HybridRecommender;
  disk : Disk;
}.

(** ** The monad of methods *)

Definition M (A : Type) : Type := World → World * result A.

Definition ret {A} (a : A) : M A := fun w => (w, Ok a).

Definition raise {A} (e : exn) : M A := fun w => (w, Raise e).

Definition bind {A B} (m : M A) (k : A → M B) : M B :=
  fun w =>
    match m w with
    | (w', Ok a) => k a w'
    | (w', Raise e) => (w', Raise e)
    end.

Declare Scope method_scope.
Delimit Scope method_scope with method.
Notation "'let!' x ':=' m 'in' k" := (bind m (fun x => k))
  (at level 10, x name, m at level 100, k at level 200) : method_scope.
Notation "m ';;' k" := (bind m (fun _ => k))
  (at level 100, k at level 200, right associativity) : method_scope.
Local Open Scope method_scope.

Definition lift {A} (r : result A) : M A := fun w => (w, r).

Definition get_self : M HybridRecommender := fun w => (w, Ok (self w)).

Definition get_disk : M Disk := fun w => (w, Ok (disk w)).

(** An assignment [self.<field> = v]. *)
Definition update (f : HybridRecommender → HybridRecommender) : M unit :=
  fun w => ({| self := f (self w); disk := disk w |}, Ok tt).

Definition write_disk (f : Disk → Disk) : M unit :=
  fun w => ({| self := self w; disk := f (disk w) |}, Ok tt).

(** [try: m  except: pass] *)
Definition try_pass (m : M unit) : M unit := fun w => ((m w).1, Ok tt).

(** ** [HybridRecommender.load_models] *)

(** The body of the [try] block.  A missing pickle raises
    FileNotFoundError, which the method's own handler turns into loading
    only the sentence model; a missing index file makes
    [faiss.read_index] raise a RuntimeError, which the handler does not
    catch. *)
Definition load_models : M unit :=
  let! files := get_disk in
  match svd_model_pkl files with
  | None => update (set_sentence_model true)
  | Some model_data =>
      update (set_svd_model (pk_model model_data));;
      update (set_user_factors (Some (pk_user_factors model_data)));;
      update (set_user_map (pk_user_map model_data));;
      update (set_reverse_user_map (pk_reverse_user_map model_data));;
      match product_index files with
      | None => raise RuntimeError
      | Some ix =>
          update (set_faiss_index (Some ix));;
          match mappings_pkl files with
          | None => update (set_sentence_model true)
          | Some mappings =>
              update (set_product_map (pk_product_map mappings));;
              update (set_reverse_product_map (pk_reverse_product_map mappings));;
              update (set_product_data (pk_product_data mappings));;
              update (set_sentence_model true);;
              update (set_initialized true)
          end
      end
  end.

(** ** [HybridRecommender._train_sync] *)

(** [a[mask]] with a boolean mask. *)
Definition masked {A} (a : list A) (mask : list bool) : list A :=
  fst <$> filter (fun p => p.2 = true) (zip a mask).

(** [df[column]]: a frame built from no record has no column. *)
Definition column_of {R A} (df : list R) (field : R → A) : M (list A) :=
  match df with
  | [] => raise KeyError
  | _ :: _ => ret (field <$> df)
  end.

(** Lines 67-75: the identifier mappings. *)
Definition build_mappings (transactions_df : list Transaction)
    (products_df : list Product) : M unit :=
  let! user_ids := column_of transactions_df user_id in
  let unique_users := Py.unique user_ids in
  update (set_user_map
            (Py.dict_of ((fun p => (p.2, p.1)) <$> Py.enumerate unique_users)));;
  update (set_reverse_user_map (Py.dict_of (Py.enumerate unique_users)));;
  let! item_codes := column_of products_df _id in
  update (set_reverse_product_map
            (Py.dict_of ((fun p => (p.2, p.1)) <$> Py.enumerate item_codes)));;
  update (set_product_map (Py.dict_of (Py.enumerate item_codes))).

(** Line 81: [np.log1p(x) if x > 0 else 0]. *)
Definition dampen (L : Libraries) (x : Z) : Q :=
  if (0 <? x)%Z then log1p L x else 0%Q.

(** Lines 77-86: the (row, column, value) triples handed to
    [csr_matrix], read off the mappings currently held by [s]. *)
Definition interaction_entries (L : Libraries) (s : HybridRecommender)
    (transactions_df : list Transaction) : list (Z * Z * Q) :=
  let transactions_df :=
    filter (fun t => is_Some (reverse_product_map s !! stock_code t))
           transactions_df in
  let user_indices :=
    (fun t => default (-1)%Z (user_map s !! user_id t)) <$> transactions_df in
  let item_indices :=
    (fun t => default (-1)%Z (reverse_product_map s !! stock_code t))
      <$> transactions_df in
  let quantities := (fun t => dampen L (quantity t)) <$> transactions_df in
  let valid_mask :=
    zip_with (fun u i => (0 <=? u)%Z && (0 <=? i)%Z) user_indices item_indices in
  zip (zip (masked user_indices valid_mask) (masked item_indices valid_mask))
      (masked quantities valid_mask).

(** Lines 77-91: the interaction matrix and its decomposition.  The
    unfitted model is stored in [self.svd_model] before the fit runs. *)
Definition fit_factors (L : Libraries) (transactions_df : list Transaction)
    (products_df : list Product) : M (list (list Q)) :=
  let unique_users := Py.unique (user_id <$> transactions_df) in
  let item_codes := _id <$> products_df in
  let! s := get_self in
  let! interaction_matrix :=
    lift (mk_csr_matrix (interaction_entries L s transactions_df)
                        (length unique_users, length item_codes)) in
  update (set_svd_model (Some {| n_components := 50; components_ := None |}));;
  let! fitted := lift (fit_transform L 50 interaction_matrix) in
  update (set_svd_model
            (Some {| n_components := 50; components_ := Some fitted.2 |}));;
  ret fitted.1.

(** Lines 94-104: description embeddings and the flat index.  The
    [description] column exists when some product has the field;
    [embeddings.shape[1]] exists when something was encoded. *)
Definition build_index (L : Libraries) (products_df : list Product) : M unit :=
  (if forallb (fun p => bool_decide (description p = None)) products_df
   then raise KeyError else ret tt);;
  let descriptions :=
    (fun p => default EmptyString (description p)) <$> products_df in
  update (set_sentence_model true);;
  let embeddings := encode L <$> descriptions in
  let! dimension :=
    match embeddings with
    | [] => raise IndexError
    | e :: _ => ret (length e)
    end in
  update (set_faiss_index (Some (Faiss.new dimension)));;
  let! ix := lift (Faiss.add (Faiss.new dimension) embeddings) in
  update (set_faiss_index (Some ix)).

(** [products_df.set_index('_id').to_dict(orient='index')]: pandas
    refuses a non-unique index. *)
Definition to_dict_index (products_df : list Product)
  : result (gmap string string) :=
  if decide (NoDup (_id <$> products_df))
  then Ok (Py.dict_of
             ((fun p => (_id p, default EmptyString (description p))) <$> products_df))
  else Raise ValueError.

(** Lines 106-107. *)
Definition publish (products_df : list Product) (factors : list (list Q))
  : M unit :=
  let! data := lift (to_dict_index products_df) in
  update (set_product_data data);;
  update (set_user_factors (Some factors)).

(** Lines 109-129: the three files, then [initialized]. *)
Definition persist (factors : list (list Q)) : M unit :=
  let! s := get_self in
  write_disk (fun f =>
    {| svd_model_pkl :=
         Some {| pk_model := svd_model s; pk_user_factors := factors;
                 pk_user_map := user_map s;
                 pk_reverse_user_map := reverse_user_map s |};
       product_index := product_index f;
       mappings_pkl := mappings_pkl f |});;
  let! ix :=
    match faiss_index s with
    | Some ix => ret ix
    | None => raise RuntimeError
    end in
  write_disk (fun f =>
    {| svd_model_pkl := svd_model_pkl f;
       product_index := Some ix;
       mappings_pkl := mappings_pkl f |});;
  write_disk (fun f =>
    {| svd_model_pkl := svd_model_pkl f;
       product_index := product_index f;
       mappings_pkl :=
         Some {| pk_product_map := product_map s;
                 pk_reverse_product_map := reverse_product_map s;
                 pk_product_data := product_data s |} |});;
  update (set_initialized true).

Definition _train_sync (L : Libraries) (transactions_df : list Transaction)
    (products_df : list Product) : M unit :=
  build_mappings transactions_df products_df;;
  let! factors := fit_factors L transactions_df products_df in
  build_index L products_df;;
  publish products_df factors;;
  persist factors.

(** [HybridRecommender.train]: [_train_sync] on an executor thread. *)
Definition train (L : Libraries) (transactions_df : list Transaction)
    (products_df : list Product) : M unit :=
  _train_sync L transactions_df products_df.

(** ** Serving *)

Record Recommendation := {
  rec_stock_code : string;
  rec_score : Q;
  rec_name : option string;
}.

Record SearchHit := {
  hit_stock_code : string;
  hit_description : string;
  hit_score : Q;
}.

(** Lines 133-140 and 172-179: the lazy reload both serving methods
    start with.  Returns whether the object is initialized afterwards. *)
Definition ensure_initialized : M bool :=
  let! s := get_self in
  if initialized s then ret true
  else
    try_pass load_models;;
    let! s := get_self in
    ret (initialized s).

(** One round of the loop of lines 160-167. *)
Definition recommend_row (s : HybridRecommender) (scores : list Q) (idx : Z)
  : option Recommendation :=
  match product_map s !! idx with
  | Some code =>
      if Py.truthy code
      then Some {| rec_stock_code := code;
                   rec_score := Np.at_ scores idx;
                   rec_name := product_data s !! code |}
      else None
  | None => None
  end.

(** [HybridRecommender.recommend] *)
Definition recommend (L : Libraries) (user_id : string) (top_k : Z)
  : M (list Recommendation) :=
  let! ready := ensure_initialized in
  if negb ready then ret []
  else
    let! s := get_self in
    match user_map s !! user_id with
    | None => ret []
    | Some user_idx =>
        match user_factors s with
        | None => ret []
        | Some factors =>
            let! user_vector := lift (Py.getitem factors user_idx) in
            let! item_matrix :=
              match svd_model s ≫= components_ with
              | Some m => ret m
              | None => raise AttributeError
              end in
            let! scores := lift (Np.dot user_vector item_matrix) in
            let top_indices :=
              Py.slice_to (reverse (argsort L scores)) top_k in
            ret (omap (recommend_row s scores) top_indices)
        end
    end.

(** One round of the loop of lines 188-195. *)
Definition search_row (s : HybridRecommender) (hit : Z * Q) : option SearchHit :=
  match product_map s !! hit.1 with
  | Some code =>
      Some {| hit_stock_code := code;
              hit_description := default "Unknown" (product_data s !! code);
              hit_score := hit.2 |}
  | None => None
  end.

(** [HybridRecommender.search] *)
Definition search (L : Libraries) (query : string) (top_k : Z)
  : M (list SearchHit) :=
  let! ready := ensure_initialized in
  if negb ready then ret []
  else
    let! s := get_self in
    match sentence_model s, faiss_index s with
    | true, Some ix =>
        let query_vector := encode L query in
        let! hits := lift (Faiss.search ix query_vector top_k) in
        ret (omap (search_row s) hits)
    | _, _ => ret []
    end.

(** ** [train_model_task] and the [/train] route *)

(** The two collections of the database that training reads. *)
Record Database := {
  transactions : list Transaction;
  products : list Product;
}.

(** [train_model_task], run to completion without interruption. *)
Definition train_model_task (L : Libraries) (db : Database) : M unit :=
  match transactions db with
  | [] => ret tt
  | _ :: _ => train L (transactions db) (products db)
  end.

(** A background task is [train_model_task] stopped at one of the points
    where another thread or coroutine can run: before the database is
    read, and before each block of [_train_sync].  The constructors hold
    the local variables that are live at that point. *)
Inductive task :=
| Fetch
| BuildMappings (transactions_df : list Transaction) (products_df : list Product)
| FitFactors (transactions_df : list Transaction) (products_df : list Product)
| BuildIndex (products_df : list Product) (factors : list (list Q))
| Publish (products_df : list Product) (factors : list (list Q))
| Persist (factors : list (list Q))
| Returned
| Died (e : exn).

(** A task is building while it is inside [_train_sync]. *)
Definition building (t : task) : bool :=
  match t with
  | BuildMappings _ _ | FitFactors _ _ | BuildIndex _ _ | Publish _ _
  | Persist _ => true
  | Fetch | Returned | Died _ => false
  end.

Definition continue_with {A} (r : World * result A) (next : A → task)
  : World * task :=
  match r with
  | (w, Ok a) => (w, next a)
  | (w, Raise e) => (w, Died e)
  end.

(** One block of a task, executed atomically. *)
Definition task_step (L : Libraries) (db : Database) (t : task) (w : World)
  : World * task :=
  match t with
  | Fetch =>
      match transactions db with
      | [] => (w, Returned)
      | _ :: _ => (w, BuildMappings (transactions db) (products db))
      end
  | BuildMappings tx pr =>
      continue_with (build_mappings tx pr w) (fun _ => FitFactors tx pr)
  | FitFactors tx pr =>
      continue_with (fit_factors L tx pr w) (fun factors => BuildIndex pr factors)
  | BuildIndex pr factors =>
      continue_with (build_index L pr w) (fun _ => Publish pr factors)
  | Publish pr factors =>
      continue_with (publish pr factors w) (fun _ => Persist factors)
  | Persist factors =>
      continue_with (persist factors w) (fun _ => Returned)
  | Returned => (w, Returned)
  | Died e => (w, Died e)
  end.

(** The server process: the singleton and the model directory, the
    database, and the background tasks that were started. *)
Record Server := {
  world : World;
  database : Database;
  tasks : list task;
}.

(** [trigger_training]: [background_tasks.add_task(train_model_task)] and
    the fixed reply. *)
Definition trigger_training (srv : Server) : Server * string :=
  ({| world := world srv; database := database srv;
      tasks := tasks srv ++ [Fetch] |},
   "Training started in background.").

(** Task number [i] runs its next block. *)
Definition run_task (L : Libraries) (i : nat) (srv : Server) : Server :=
  match tasks srv !! i with
  | None => srv
  | Some t =>
      let r := task_step L (database srv) t (world srv) in
      {| world := r.1; database := database srv;
         tasks := <[i := r.2]> (tasks srv) |}
  end.

(** What the process can do between two observations. *)
Inductive event :=
| PostTrain                      (* a client posts to /train *)
| RunTask (i : nat)              (* the scheduler resumes task i *)
| Ingest (db : Database).        (* the ingestion script rewrites the collections *)

Definition handle (L : Libraries) (srv : Server) (e : event) : Server :=
  match e with
  | PostTrain => (trigger_training srv).1
  | RunTask i => run_task L i srv
  | Ingest db =>
      {| world := world srv; database := db; tasks := tasks srv |}
  end.

Definition run (L : Libraries) (srv : Server) (trace : list event) : Server :=
  foldl (handle L) srv trace.

(** A freshly started process. *)
Definition boot (db : Database) : Server :=
  {| world := {| self := __init__; disk := empty_disk |};
     database := db; tasks := [] |}.

(** ** Properties the statements below are phrased with *)

(** What a method leaves untouched: the projection [proj] of the
    singleton is the same before and after, whether the method returns or
    raises. *)
Definition preserves {X A} (proj : HybridRecommender → X) (m : M A) : Prop :=
  ∀ w, proj (self (m w).1) = proj (self w).

(** The four identifier mappings of the singleton. *)
Definition mappings (s : HybridRecommender) :=
  (user_map s, reverse_user_map s, reverse_product_map s, product_map s).

(** An identifier registry over the identifiers [ids]: [index_of] and
    [id_of] are inverse to each other, defined exactly on [ids] and on a
    contiguous range of indices starting at 0. *)
Record bijective (index_of : gmap string Z) (id_of : gmap Z string)
    (ids : list string) : Prop := {
  bij_index_of_id : ∀ id, id ∈ ids →
    ∃ i, index_of !! id = Some i ∧ id_of !! i = Some id;
  bij_id_of_index : ∀ i id, id_of !! i = Some id →
    index_of !! id = Some i ∧ id ∈ ids;
  bij_injective : ∀ id1 id2 i,
    index_of !! id1 = Some i → index_of !! id2 = Some i → id1 = id2;
  bij_contiguous : ∀ i,
    (∃ id, index_of !! id = Some i) ↔ (0 ≤ i < Z.of_nat (size index_of))%Z;
}.

(** The interactions that count for the cell (u, i): positive quantity,
    user registered with index [u], item registered with index [i]. *)
Definition counts_for (s : HybridRecommender) (u i : Z) (t : Transaction)
  : Prop :=
  (0 < quantity t)%Z ∧
  user_map s !! user_id t = Some u ∧
  reverse_product_map s !! stock_code t = Some i.

#[global] Instance counts_for_dec s u i t : Decision (counts_for s u i t).
Proof. unfold counts_for. apply _. Defined.

(** The aggregation policy in the words of the specification: the sum of
    the dampened quantities of the interactions that count. *)
Definition aggregated_weight (L : Libraries) (s : HybridRecommender)
    (transactions_df : list Transaction) (u i : Z) : Q :=
  Np.sum ((fun t => log1p L (quantity t))
            <$> filter (counts_for s u i) transactions_df).

(** The registry a snapshot defines, on an otherwise empty object. *)
Definition registry (transactions_df : list Transaction)
    (products_df : list Product) : HybridRecommender :=
  let unique_users := Py.unique (user_id <$> transactions_df) in
  let item_codes := _id <$> products_df in
  set_product_map (Py.dict_of (Py.enumerate item_codes))
    (set_reverse_product_map
       (Py.dict_of ((fun p => (p.2, p.1)) <$> Py.enumerate item_codes))
       (set_reverse_user_map (Py.dict_of (Py.enumerate unique_users))
          (set_user_map
             (Py.dict_of
                ((fun p => (p.2, p.1)) <$> Py.enumerate unique_users))
             __init__))).

(** A snapshot whose frames have their columns and whose product keys
    are distinct, as the primary key of the collection makes them. *)
Definition well_formed (transactions_df : list Transaction)
    (products_df : list Product) : Prop :=
  transactions_df ≠ [] ∧ products_df ≠ [] ∧ NoDup (_id <$> products_df).

(** The interaction matrix of a snapshot. *)
Definition snapshot_matrix (L : Libraries) (transactions_df : list Transaction)
    (products_df : list Product) : csr_matrix :=
  {| entries :=
       interaction_entries L (registry transactions_df products_df)
                           transactions_df;
     shape := (length (Py.unique (user_id <$> transactions_df)),
               length (_id <$> products_df)) |}.

(** The model artifact of a snapshot: every field a serving call reads,
    as a function of that snapshot alone, such as a successful build
    leaves them.  There is none when the decomposition raises or when
    there is no product to embed. *)
Definition artifact (L : Libraries) (transactions_df : list Transaction)
    (products_df : list Product) : option HybridRecommender :=
  let r := registry transactions_df products_df in
  let embeddings :=
    encode L <$> ((fun p => default EmptyString (description p)) <$> products_df) in
  match fit_transform L 50 (snapshot_matrix L transactions_df products_df),
        embeddings with
  | Ok fitted, e :: _ =>
      Some {| svd_model :=
                Some {| n_components := 50; components_ := Some fitted.2 |};
              sentence_model := true;
              faiss_index :=
                Some {| Faiss.d := length e; Faiss.xb := embeddings |};
              product_map := product_map r;
              reverse_product_map := reverse_product_map r;
              product_data :=
                Py.dict_of ((fun p => (_id p, default EmptyString (description p)))
                              <$> products_df);
              user_map := user_map r;
              reverse_user_map := reverse_user_map r;
              user_factors := Some fitted.1;
              initialized := true |}
  | _, _ => None
  end.

(** The order in which the flat index lists its results: by distance,
    and by label among equal distances. *)
Definition nearer (a b : Z * Q) : Prop :=
  (a.2 < b.2)%Q ∨ ((a.2 == b.2)%Q ∧ (a.1 < b.1)%Z).


(** The internal index [i] has a stock code, and not the empty one. *)
Definition listed (s : HybridRecommender) (i : Z) : bool :=
  match product_map s !! i with
  | Some code => negb (String.eqb code EmptyString)
  | None => false
  end.


(** The shapes scikit-learn documents for [fit_transform]: one
    transformed row per row of the input, as long as [components_] has
    rows. *)
Definition factor_shapes (L : Libraries) : Prop :=
  ∀ n X fitted, fit_transform L n X = Ok fitted →
    length fitted.1 = (shape X).1 ∧
    Forall (fun row => length row = length fitted.2) fitted.1.

(** The three files [_train_sync] writes for the singleton [s]. *)
Definition persisted (s : HybridRecommender) : Disk :=
  {| svd_model_pkl :=
       Some {| pk_model := svd_model s;
               pk_user_factors := default [] (user_factors s);
               pk_user_map := user_map s;
               pk_reverse_user_map := reverse_user_map s |};
     product_index := faiss_index s;
     mappings_pkl :=
       Some {| pk_product_map := product_map s;
               pk_reverse_product_map := reverse_product_map s;
               pk_product_data := product_data s |} |}.

(** No artifact was published: the object is not initialized and the
    model directory lacks one of the three files. *)
Definition unpublished (w : World) : Prop :=
  initialized (self w) = false ∧
  (svd_model_pkl (disk w) = None ∨ product_index (disk w) = None ∨
   mappings_pkl (disk w) = None).

(** A cold user: no internal index in the mappings a serving call reads,
    that is, after its lazy reload. *)
Definition cold (w : World) (user_id : string) : Prop :=
  user_map (self (ensure_initialized w).1) !! user_id = None.



(** [n] requests to /train, each followed by the first block of the task
    it started. *)
Fixpoint pile_up (n : nat) : list event :=
  match n with
  | 0 => []
  | S m => pile_up m ++ [PostTrain; RunTask m]
  end.

(** [n] consecutive blocks of one task, nothing else running. *)
Fixpoint iter_task (L : Libraries) (db : Database) (n : nat) (t : task)
    (w : World) : World * task :=
  match n with
  | 0 => (w, t)
  | S m => let '(w', t') := task_step L db t w in iter_task L db m t' w'
  end.

(** ** One concrete choice of the numerical routines

    Used to run the model on examples.  [fit_transform] refuses a rank
    above the number of columns, as scikit-learn's TruncatedSVD does
    ("n_components must be <= n_features"), and otherwise factors the
    first [n_components] columns of the matrix exactly; [log1p] is the
    binary logarithm of [1 + x] rounded down; the encoder maps a text to
    its length and the count of its blanks. *)
Module Sample.

Definition log1p (x : Z) : Q := inject_Z (Z.log2 (1 + x)).

Definition dense_row (X : csr_matrix) (n : nat) (r : Z) : list Q :=
  (fun c => Qred (cell X r (Z.of_nat c))) <$> seq 0 n.

Definition unit_row (n j : nat) : list Q :=
  (fun c => if decide (c = j) then 1%Q else 0%Q) <$> seq 0 n.

Definition fit_transform (n_components : nat) (X : csr_matrix)
  : result (list (list Q) * list (list Q)) :=
  if decide (n_components ≤ (shape X).2)
  then Ok ((fun r => dense_row X n_components (Z.of_nat r))
             <$> seq 0 (shape X).1,
           unit_row (shape X).2 <$> seq 0 n_components)
  else Raise ValueError.

Fixpoint blanks (s : string) : nat :=
  match s with
  | EmptyString => 0
  | String c s' => (if Ascii.eqb c " "%char then 1 else 0) + blanks s'
  end.

Definition encode (s : string) : list Q :=
  [inject_Z (Z.of_nat (String.length s)); inject_Z (Z.of_nat (blanks s))].

Definition libs : Libraries :=
  Build_Libraries log1p Np.stable_argsort fit_transform encode.

(** A catalogue of [n] products ["P00"], ["P01"], ... *)
Definition code (n : nat) : string :=
  String "P"%char
    (String (Ascii.ascii_of_nat (48 + n / 10))
       (String (Ascii.ascii_of_nat (48 + n mod 10)) EmptyString)).

Definition catalogue (n : nat) : list Product :=
  (fun i => {| _id := code i; description := Some ("item " +:+ code i) |})
    <$> seq 0 n.

Definition new_world : World := {| self := __init__; disk := empty_disk |}.

Definition purchase (u code : string) (q : Z) : Transaction :=
  {| user_id := u; stock_code := code; quantity := q |}.

(** One customer, one purchase, fifty products. *)
Definition db1 : Database :=
  {| transactions := [purchase "U1" "P00" 3];
     products := catalogue 50 |}.

(** A later state of the collections: a new customer comes first. *)
Definition db2 : Database :=
  {| transactions := [purchase "U0" "P01" 1; purchase "U1" "P00" 2];
     products := catalogue 50 |}.

(** Transactions, but only a return. *)
Definition returns_only : Database :=
  {| transactions := [purchase "U7" "P00" (-2)];
     products := catalogue 50 |}.

(** Fewer products than the rank. *)
Definition tiny : Database :=
  {| transactions := [purchase "U1" "P00" 3];
     products := catalogue 1 |}.

Definition no_transactions : Database :=
  {| transactions := []; products := catalogue 50 |}.

(** The world after one training run on [db1]. *)
Definition trained : World := (train_model_task libs db1 new_world).1.

(** A second customer whose only transaction is a return: the row of the
    interaction matrix is zero, and so are all the scores. *)
Definition db_ties : Database :=
  {| transactions := [purchase "U1" "P00" 3; purchase "U2" "P01" (-1)];
     products := catalogue 50 |}.

Definition trained_ties : World :=
  (train_model_task libs db_ties new_world).1.


(** One build on [db1] stopped after its mappings. *)
Definition busy : Server :=
  run libs (boot db1) [PostTrain; RunTask 0; RunTask 0].

End Sample.

(** ** The ordering examples of the specification *)

Module SpecExample.

(** Users u1 = [1,0], u2 = [0,1]; items (as columns) A = [2,0],
    B = [0,3], C = [1,1]. *)
Definition scoring : World :=
  {| self :=
       {| svd_model :=
            Some {| n_components := 2;
                    components_ := Some [[2; 0; 1]; [0; 3; 1]]%Q |};
          sentence_model := true;
          faiss_index := None;
          product_map := Py.dict_of (Py.enumerate ["A"; "B"; "C"]);
          reverse_product_map :=
            Py.dict_of ((fun p => (p.2, p.1))
                          <$> Py.enumerate ["A"; "B"; "C"]);
          product_data := ∅;
          user_map :=
            Py.dict_of ((fun p => (p.2, p.1)) <$> Py.enumerate ["u1"; "u2"]);
          reverse_user_map := Py.dict_of (Py.enumerate ["u1"; "u2"]);
          user_factors := Some [[1; 0]; [0; 1]]%Q;
          initialized := true |};
     disk := empty_disk |}.

(** Item vectors A = (0,0), B = (1,0), C = (5,5). *)
Definition searching : World :=
  {| self :=
       set_faiss_index
         (Some {| Faiss.d := 2;
                  Faiss.xb := [[0; 0]; [1; 0]; [5; 5]]%Q |})
         (self scoring);
     disk := empty_disk |}.

(** An encoder that sends the query text to (0.1, 0.1). *)
Definition libs : Libraries :=
  {| log1p := Sample.log1p;
     argsort := Np.stable_argsort;
     fit_transform := Sample.fit_transform;
     encode := fun _ => [1 # 10; 1 # 10] |}.

End SpecExample.

(** ** Further vocabulary for the recommender *)

(** A method that leaves the model directory as it found it, whether it
    returns or raises. *)
Definition keeps_disk {A} (m : M A) : Prop := ∀ w, disk (m w).1 = disk w.

(** The shape scikit-learn documents for [components_]: one row per
    component, each as long as the input has columns. *)
Definition component_shapes (L : Libraries) : Prop :=
  ∀ n X fitted, 0 < n → fit_transform L n X = Ok fitted →
    Np.n_columns fitted.2 = (shape X).2.

Definition is_ingest (e : event) : bool :=
  match e with
  | Ingest _ => true
  | PostTrain | RunTask _ => false
  end.

(** ** [backend/scripts/ingest_data.py]: the chunked insertion

    The transaction phase of the script (lines 56-57 and 68-93) over the
    list of records [to_dict(orient='records')] returned; a collection is
    the list of its documents in insertion order. *)

Module IngestData.

(** What can go wrong in this phase. *)
Inductive script_exn :=
| RangeStepZero        (* ValueError: range() arg 3 must not be zero *)
| EmptyDocuments.      (* TypeError: documents must be a non-empty list *)

(** The positions [range(start, stop, step)] runs through, at most
    [fuel] of them. *)
Fixpoint range_from (fuel : nat) (start stop step : Z) : list Z :=
  match fuel with
  | 0 => []
  | S fuel' =>
      if (if (0 <? step)%Z then (start <? stop)%Z else (stop <? start)%Z)
      then start :: range_from fuel' (start + step) stop step
      else []
  end.

(** [range(start, stop, step)]: it has no more than |stop - start|
    positions. *)
Definition range (start stop step : Z) : script_exn + list Z :=
  if (step =? 0)%Z then inl RangeStepZero
  else inr (range_from (Z.to_nat (Z.abs (stop - start))) start stop step).

(** A bound of a slice, brought into [0, n]. *)
Definition slice_bound (n i : Z) : Z :=
  if (i <? 0)%Z then Z.max 0 (i + n) else Z.min i n.

(** [l[lo:hi]] *)
Definition slice {A} (l : list A) (lo hi : Z) : list A :=
  let n := Z.of_nat (length l) in
  let a := slice_bound n lo in
  let b := slice_bound n hi in
  take (Z.to_nat (b - a)) (drop (Z.to_nat a) l).

(** Lines 56-57.  The range is built when [chunker] is called, the
    slices are taken as the generator is consumed. *)
Definition chunker {A} (seq : list A) (size : Z)
  : script_exn + list (list A) :=
  match range 0 (Z.of_nat (length seq)) size with
  | inl e => inl e
  | inr positions => inr ((fun pos => slice seq pos (pos + size)) <$> positions)
  end.

(** [collection.delete_many({})] *)
Definition delete_many {A} (collection : list A) : list A := [].

(** [collection.insert_many(documents)] *)
Definition insert_many {A} (documents : list A) (collection : list A)
  : script_exn + list A :=
  match documents with
  | [] => inl EmptyDocuments
  | _ :: _ => inr (collection ++ documents)
  end.

(** The loop of lines 88-91 over the chunks that are left; the state is
    the collection and [total_inserted]. *)
Fixpoint insert_chunks {A} (chunks : list (list A)) (collection : list A)
    (total_inserted : Z) : script_exn + (list A * Z) :=
  match chunks with
  | [] => inr (collection, total_inserted)
  | chunk :: chunks' =>
      match insert_many chunk collection with
      | inl e => inl e
      | inr collection' =>
          insert_chunks chunks' collection'
                        (total_inserted + Z.of_nat (length chunk))
      end
  end.

Definition chunk_size : Z := 1000.

(** Lines 68-93: from the [transactions] collection as it was found to
    the collection as it is left, with [total_inserted]. *)
Definition ingest_transactions {A} (transaction_records : list A)
    (transactions_collection : list A) : script_exn + (list A * Z) :=
  let transactions_collection := delete_many transactions_collection in
  match chunker transaction_records chunk_size with
  | inl e => inl e
  | inr chunks => insert_chunks chunks transactions_collection 0
  end.

End IngestData.

(** ** Settings as the modules read them

    [db/redis.py], [db/mongodb.py], [ml/train.py] and
    [scripts/ingest_data.py] pass every setting they read through
    [strip] with the two quote characters.  Strings are byte strings;
    both quotes are single bytes that occur in no multi-byte UTF-8
    sequence. *)

Module Settings.

(** [s.lstrip(chars)] *)
Fixpoint lstrip (chars : list ascii) (s : string) : string :=
  match s with
  | EmptyString => EmptyString
  | String c s' => if bool_decide (c ∈ chars) then lstrip chars s' else s
  end.

(** [s.rstrip(chars)] *)
Fixpoint rstrip (chars : list ascii) (s : string) : string :=
  match s with
  | EmptyString => EmptyString
  | String c s' =>
      match rstrip chars s' with
      | EmptyString =>
          if bool_decide (c ∈ chars) then EmptyString else String c EmptyString
      | String c' r => String c (String c' r)
      end
  end.

(** [s.strip(chars)] *)
Definition strip (chars : list ascii) (s : string) : string :=
  rstrip chars (lstrip chars s).

(** The argument of [strip] in the sources: the double and the single
    quote. *)
Definition quotes : list ascii := ["034"%char; "'"%char].

(** What every module does to a setting it reads ([MONGODB_URL],
    [DATABASE_NAME], [REDIS_URL]) before it uses it: [strip] with the
    two quotes. *)
Definition sanitize (setting : string) : string := strip quotes setting.

(** [s.startswith(p)] *)
Definition startswith (s p : string) : bool := String.prefix p s.

(** [RedisClient.connect_to_redis]: the URL handed to [redis.from_url]. *)
Definition connect_to_redis (REDIS_URL : string) : string :=
  let url := sanitize REDIS_URL in
  if negb (startswith url "redis://") && negb (startswith url "rediss://")
  then "redis://" +:+ url
  else url.

End Settings.

Definition first_char (s : string) : option ascii :=
  match s with
  | EmptyString => None
  | String c _ => Some c
  end.

Fixpoint last_char (s : string) : option ascii :=
  match s with
  | EmptyString => None
  | String c s' =>
      match last_char s' with
      | None => Some c
      | Some c' => Some c'
      end
  end.

(** [s] consists of characters of [chars] only. *)
Fixpoint all_in (chars : list ascii) (s : string) : Prop :=
  match s with
  | EmptyString => True
  | String c s' => c ∈ chars ∧ all_in chars s'
  end.

(** Neither end of [s] is one of [chars]. *)
Definition bare (chars : list ascii) (s : string) : Prop :=
  (∀ c, first_char s = Some c → c ∉ chars) ∧
  (∀ c, last_char s = Some c → c ∉ chars).

(** ** The [/users/{user_id}/recommendations] route

    [get_recommendations] of [backend/app/api/routes.py].  The language
    model behind [llm_service.explain_recommendation] is an oracle; the
    handler's state is the recommender's world and the log of the calls
    made to the oracle. *)

Module Routes.

(** How a request can fail inside the handler. *)
Inductive route_exn :=
| TypeError                  (* "User loves " + None *)
| ValidationError            (* RecommendationResponse refuses a field *)
| Uncaught (e : exn).        (* raised by [recommender.recommend] *)

(** What [explain_recommendation] returns: the reply of the language
    model as [json.loads] parsed it, or the fixed dictionary of its
    [except] branch. *)
Inductive json :=
| JsonObject (content : string)
| JsonNull
| JsonOther (content : string).

(** The arguments of one call of [explain_recommendation]:
    [user_profile], [item_name] and [score]. *)
Definition Explain : Type := string * option string * Q.

(** The reply to a call, given how many calls were made before it. *)
Definition LlmService : Type := nat → Explain → json.

Record RecommendationResponse := {
  resp_stock_code : string;
  resp_description : string;
  resp_score : Q;
  resp_explanation : option string;
}.

(** The constructor call of lines 96-101.  [item.get('name', 'Unknown')]
    is [item['name']], since [recommend] sets the key in every item;
    [description] must be a string, [explanation] a dictionary or None. *)
Definition new_RecommendationResponse (item : Recommendation)
    (explanation_data : option json) : route_exn + RecommendationResponse :=
  match rec_name item with
  | None => inl ValidationError
  | Some name =>
      match explanation_data with
      | Some (JsonOther _) => inl ValidationError
      | Some (JsonObject content) =>
          inr {| resp_stock_code := rec_stock_code item;
                 resp_description := name;
                 resp_score := rec_score item;
                 resp_explanation := Some content |}
      | Some JsonNull | None =>
          inr {| resp_stock_code := rec_stock_code item;
                 resp_description := name;
                 resp_score := rec_score item;
                 resp_explanation := None |}
      end
  end.

(** The loop of lines 86-102 from round [i] on; [log] holds the calls
    made so far. *)
Fixpoint respond (llm_service : LlmService) (user_id : string) (i : nat)
    (recs : list Recommendation) (log : list Explain)
  : list Explain * (route_exn + list RecommendationResponse) :=
  match recs with
  | [] => (log, inr [])
  | item :: recs' =>
      let '(log, explanation_data) :=
        if i <? 2
        then
          let call :=
            ("User History ID: " +:+ user_id, rec_name item, rec_score item) in
          (log ++ [call], Some (llm_service (length log) call))
        else (log, None) in
      match new_RecommendationResponse item explanation_data with
      | inl e => (log, inl e)
      | inr response =>
          match respond llm_service user_id (S i) recs' log with
          | (log, inl e) => (log, inl e)
          | (log, inr response_items) => (log, inr (response :: response_items))
          end
      end
  end.

(** [get_recommendations] *)
Definition get_recommendations (L : Libraries) (llm_service : LlmService)
    (user_id : string) (w : World) (log : list Explain)
  : World * list Explain * (route_exn + list RecommendationResponse) :=
  match recommend L user_id 5 w with
  | (w, Raise e) => (w, log, inl (Uncaught e))
  | (w, Ok []) => (w, log, inr [])
  | (w, Ok (rec0 :: recs')) =>
      match rec_name rec0 with
      | None => (w, log, inl TypeError)
      | Some _ =>
          let '(log, outcome) :=
            respond llm_service user_id 0 (rec0 :: recs') log in
          (w, log, outcome)
      end
  end.

End Routes.

(** * Proofs *)

(** ** Dictionary comprehensions over [enumerate] *)

Lemma foldl_insert_lookup {K V} `{Countable K} (kvs : list (K * V))
    (m : gmap K V) (k : K) (v : V) :
  NoDup (kvs.*1) →
  foldl (fun m kv => <[kv.1 := kv.2]> m) m kvs !! k = Some v ↔
  (k, v) ∈ kvs ∨ ((k ∉ kvs.*1) ∧ (m !! k = Some v)).
Proof.
  revert m. induction kvs as [|[k' v'] kvs IH]; intros m Hnd; simpl.
  - split; [intros; right; split; [apply not_elem_of_nil | done] |].
    intros [Hin | [_ ?]]; [by apply elem_of_nil in Hin | done].
  - apply NoDup_cons in Hnd as [Hk' Hnd]. rewrite (IH _ Hnd).
    rewrite elem_of_cons, not_elem_of_cons. split.
    + intros [? | [Hnot Hm]]; [by left; right |].
      destruct (decide (k = k')) as [-> | Hne].
      * rewrite lookup_insert_eq in Hm. left; left. congruence.
      * rewrite lookup_insert_ne in Hm by done. right. done.
    + intros [[Heq | Hin] | [[Hne Hnot] Hm]].
      * inversion Heq; subst. right. split; [done |]. apply lookup_insert_eq.
      * by left.
      * right. split; [done |]. by rewrite lookup_insert_ne.
Qed.

Lemma dict_of_lookup {K V} `{Countable K} (kvs : list (K * V)) k v :
  NoDup (kvs.*1) → Py.dict_of kvs !! k = Some v ↔ (k, v) ∈ kvs.
Proof.
  intros Hnd. unfold Py.dict_of. rewrite foldl_insert_lookup by done.
  rewrite lookup_empty. naive_solver.
Qed.

Lemma elem_of_enumerate_from {A} (l : list A) i j x :
  (j, x) ∈ Py.enumerate_from i l ↔
  (i ≤ j)%Z ∧ l !! Z.to_nat (j - i) = Some x.
Proof.
  revert i. induction l as [|y l IH]; intros i; simpl.
  - rewrite elem_of_nil. naive_solver.
  - rewrite elem_of_cons, IH. split.
    + intros [Heq | [Hle Hl]].
      * inversion Heq; subst. split; [lia |]. by rewrite Z.sub_diag.
      * split; [lia |].
        replace (Z.to_nat (j - i)) with (S (Z.to_nat (j - (i + 1)))) by lia.
        done.
    + intros [Hle Hl]. destruct (decide (j = i)) as [-> | Hne].
      * rewrite Z.sub_diag in Hl. simpl in Hl. left. congruence.
      * right. split; [lia |].
        replace (Z.to_nat (j - i)) with (S (Z.to_nat (j - (i + 1)))) in Hl by lia.
        done.
Qed.

Lemma enumerate_from_fst {A} (l : list A) i :
  (Py.enumerate_from i l).*1 = (fun n => (i + Z.of_nat n)%Z) <$> seq 0 (length l).
Proof.
  revert i. induction l as [|y l IH]; intros i; simpl; [done |].
  rewrite IH. f_equal; [f_equal; lia |].
  rewrite <- fmap_S_seq, <- list_fmap_compose.
  apply list_fmap_ext. intros _ n _. simpl. lia.
Qed.

Lemma enumerate_from_snd {A} (l : list A) i : (Py.enumerate_from i l).*2 = l.
Proof. revert i. induction l; intros; simpl; [done | by f_equal]. Qed.

Lemma enumerate_from_NoDup {A} (l : list A) i : NoDup (Py.enumerate_from i l).*1.
Proof.
  rewrite enumerate_from_fst. apply NoDup_fmap_2; [| apply NoDup_seq].
  intros n1 n2 ?. lia.
Qed.

Lemma length_enumerate_from {A} (l : list A) i :
  length (Py.enumerate_from i l) = length l.
Proof. revert i. induction l; intros; simpl; [done | by f_equal]. Qed.

Lemma unique_from_elem_of seen l x :
  x ∈ Py.unique_from seen l ↔ x ∈ l ∧ x ∉ seen.
Proof.
  revert seen. induction l as [|y l IH]; intros seen; simpl.
  - rewrite elem_of_nil. naive_solver.
  - destruct (decide (y ∈ seen)).
    + rewrite IH, elem_of_cons. naive_solver.
    + rewrite !elem_of_cons, IH. split.
      * intros [-> | [? ?]]; [by auto |]. split; [by right | set_solver].
      * intros [[-> | ?] ?]; [by left |].
        destruct (decide (x = y)) as [-> | ?]; [by left |].
        right. split; [done | set_solver].
Qed.

Lemma unique_from_NoDup seen l : NoDup (Py.unique_from seen l).
Proof.
  revert seen. induction l as [|y l IH]; intros seen; simpl; [constructor |].
  destruct (decide (y ∈ seen)); [done |].
  constructor; [| done]. rewrite unique_from_elem_of. set_solver.
Qed.

Lemma unique_elem_of l x : x ∈ Py.unique l ↔ x ∈ l.
Proof. unfold Py.unique. rewrite unique_from_elem_of. set_solver. Qed.

Lemma unique_NoDup l : NoDup (Py.unique l).
Proof. apply unique_from_NoDup. Qed.

Ltac run_method :=
  unfold bind, update, write_disk, lift, ret, raise, get_self, get_disk,
    try_pass; simpl.

(** ** Frame reasoning: what a method leaves untouched *)

Section Frame.
Context {X : Type} (proj : HybridRecommender → X).

Lemma preserves_ret {A} (a : A) : preserves proj (ret a).
Proof. by intros w. Qed.

Lemma preserves_raise {A} e : preserves proj (raise (A := A) e).
Proof. by intros w. Qed.

Lemma preserves_lift {A} (r : result A) : preserves proj (lift r).
Proof. by intros w. Qed.

Lemma preserves_get_self : preserves proj get_self.
Proof. by intros w. Qed.

Lemma preserves_get_disk : preserves proj get_disk.
Proof. by intros w. Qed.

Lemma preserves_write_disk f : preserves proj (write_disk f).
Proof. by intros w. Qed.

Lemma preserves_update f :
  (∀ s, proj (f s) = proj s) → preserves proj (update f).
Proof. intros Hf w. apply Hf. Qed.

Lemma preserves_bind {A B} (m : M A) (k : A → M B) :
  preserves proj m → (∀ a, preserves proj (k a)) →
  preserves proj (bind m k).
Proof.
  intros Hm Hk w. unfold bind. specialize (Hm w).
  destruct (m w) as [w' [a | e]]; simpl in *; [| done].
  by rewrite Hk.
Qed.

Lemma preserves_try_pass (m : M unit) :
  preserves proj m → preserves proj (try_pass m).
Proof. intros Hm w. apply Hm. Qed.
End Frame.

Ltac frame :=
  repeat first
    [ apply preserves_ret | apply preserves_raise | apply preserves_lift
    | apply preserves_get_self | apply preserves_get_disk
    | apply preserves_write_disk
    | apply preserves_update; intros; reflexivity
    | apply preserves_bind; [| intros ?]
    | progress case_match ].

Lemma fit_factors_mappings L tx pr : preserves mappings (fit_factors L tx pr).
Proof. unfold fit_factors. frame. Qed.

Lemma build_index_mappings L pr : preserves mappings (build_index L pr).
Proof. unfold build_index. frame. Qed.

Lemma publish_mappings pr factors : preserves mappings (publish pr factors).
Proof. unfold publish. frame. Qed.

Lemma persist_mappings factors : preserves mappings (persist factors).
Proof. unfold persist. frame. Qed.

Lemma build_mappings_run tx pr w :
  tx ≠ [] → pr ≠ [] →
  build_mappings tx pr w =
  ({| self :=
        set_product_map (product_map (registry tx pr))
          (set_reverse_product_map (reverse_product_map (registry tx pr))
             (set_reverse_user_map (reverse_user_map (registry tx pr))
                (set_user_map (user_map (registry tx pr)) (self w))));
      disk := disk w |}, Ok tt).
Proof. by destruct tx, pr. Qed.

Lemma build_mappings_ok tx pr w :
  (build_mappings tx pr w).2 = Ok tt → tx ≠ [] ∧ pr ≠ [].
Proof. by destruct tx, pr. Qed.

Lemma train_sync_mappings L tx pr w :
  tx ≠ [] → pr ≠ [] →
  mappings (self (_train_sync L tx pr w).1) = mappings (registry tx pr).
Proof.
  intros Htx Hpr. unfold _train_sync. unfold bind at 1.
  rewrite build_mappings_run by done. cbv beta iota.
  match goal with
  | |- mappings (self (_ ?w').1) = _ =>
      change (mappings (registry tx pr)) with (mappings (self w'))
  end.
  apply (preserves_bind mappings (fit_factors L tx pr)).
  - apply fit_factors_mappings.
  - intros factors. apply preserves_bind; [apply build_index_mappings |].
    intros _. apply preserves_bind; [apply publish_mappings |].
    intros _. apply persist_mappings.
Qed.

(** ** The identifier registry *)

Lemma swap_enumerate_fst {A} (l : list A) i :
  ((fun p : Z * A => (p.2, p.1)) <$> Py.enumerate_from i l).*1 = l.
Proof.
  rewrite <- list_fmap_compose. rewrite <- (enumerate_from_snd l i) at 2.
  by apply list_fmap_ext.
Qed.

Lemma enumerate_bijective (ids : list string) :
  NoDup ids →
  bijective (Py.dict_of ((fun p => (p.2, p.1)) <$> Py.enumerate ids))
            (Py.dict_of (Py.enumerate ids)) ids.
Proof.
  intros Hnd. unfold Py.enumerate.
  assert (Hfwd : ∀ id i,
    Py.dict_of ((fun p : Z * string => (p.2, p.1)) <$> Py.enumerate_from 0 ids) !! id = Some i ↔
    (0 ≤ i)%Z ∧ ids !! Z.to_nat i = Some id).
  { intros id i. rewrite dict_of_lookup by (by rewrite swap_enumerate_fst).
    rewrite list_elem_of_fmap. split.
    - intros [[j x] [Heq Hin]]. simpl in Heq. inversion Heq; subst.
      apply elem_of_enumerate_from in Hin. by rewrite Z.sub_0_r in Hin.
    - intros [Hle Hl]. exists (i, id). split; [done |].
      apply elem_of_enumerate_from. by rewrite Z.sub_0_r. }
  assert (Hbwd : ∀ i id,
    Py.dict_of (Py.enumerate_from 0 ids) !! i = Some id ↔
    (0 ≤ i)%Z ∧ ids !! Z.to_nat i = Some id).
  { intros i id. rewrite dict_of_lookup by apply enumerate_from_NoDup.
    rewrite elem_of_enumerate_from. by rewrite Z.sub_0_r. }
  assert (Hsize :
    size (Py.dict_of ((fun p : Z * string => (p.2, p.1)) <$> Py.enumerate_from 0 ids))
    = length ids).
  { rewrite <- (length_enumerate_from ids 0).
    rewrite <- (length_fmap (fun p : Z * string => (p.2, p.1))).
    rewrite <- (map_size_list_to_map (M := gmap string))
      by (by rewrite swap_enumerate_fst).
    f_equal. apply map_eq. intros id. apply option_eq. intros i.
    rewrite dict_of_lookup by (by rewrite swap_enumerate_fst).
    by rewrite <- elem_of_list_to_map by (by rewrite swap_enumerate_fst). }
  split.
  - intros id [n Hn]%list_elem_of_lookup. exists (Z.of_nat n).
    rewrite Hfwd, Hbwd, Nat2Z.id. split; (split; [lia | done]).
  - intros i id. rewrite Hbwd, Hfwd. intros [? Hl]. split; [done |].
    by eapply list_elem_of_lookup_2.
  - intros id1 id2 i. rewrite !Hfwd. intros [_ H1] [_ H2]. congruence.
  - intros i. rewrite Hsize. split.
    + intros [id [Hle Hl]%Hfwd]. apply lookup_lt_Some in Hl. lia.
    + intros [Hle Hlt].
      destruct (lookup_lt_is_Some_2 ids (Z.to_nat i)) as [id Hid]; [lia |].
      exists id. by apply Hfwd.
Qed.

Lemma bijective_ext index_of id_of (ids ids' : list string) :
  (∀ id, id ∈ ids ↔ id ∈ ids') →
  bijective index_of id_of ids → bijective index_of id_of ids'.
Proof.
  intros Hext [H1 H2 H3 H4]. split; auto.
  - intros id Hin. apply H1. by apply Hext.
  - intros i id Hi. destruct (H2 i id Hi). split; [done |]. by apply Hext.
Qed.

(** C6.  For every training snapshot whose frames have their columns and
    whose product keys are distinct, the mappings [_train_sync] builds
    are bijections, for users and for items, whether the run goes on to
    succeed or not: every identifier of the snapshot has an index that
    maps back to it, every assigned index maps to an identifier that maps
    back to the index, no two identifiers share an index, and the
    assigned indices are exactly 0 .. N-1, N being the number of
    identifiers that have one. *)
Theorem train_sync_mappings_bijective L tx pr w :
  well_formed tx pr →
  let s := self (_train_sync L tx pr w).1 in
  bijective (user_map s) (reverse_user_map s) (user_id <$> tx) ∧
  bijective (reverse_product_map s) (product_map s) (_id <$> pr).
Proof.
  intros (Htx & Hpr & Hnd) s.
  pose proof (train_sync_mappings L tx pr w Htx Hpr) as Hm.
  fold s in Hm. unfold mappings in Hm. inversion Hm as [[Hu Hru Hrp Hp]].
  split.
  - apply (bijective_ext _ _ (Py.unique (user_id <$> tx))).
    + apply unique_elem_of.
    + rewrite Hu, Hru. apply enumerate_bijective, unique_NoDup.
  - rewrite Hrp, Hp. by apply enumerate_bijective.
Qed.

(** ** The interaction matrix *)

Lemma masked_cons {A} (x : A) (b : bool) a mask :
  masked (x :: a) (b :: mask) =
  if b then x :: masked a mask else masked a mask.
Proof.
  unfold masked. change (zip (x :: a) (b :: mask)) with ((x, b) :: zip a mask).
  rewrite filter_cons.
  by destruct b.
Qed.

Lemma interaction_entries_cons L s t tx :
  interaction_entries L s (t :: tx) =
  match reverse_product_map s !! stock_code t with
  | Some i =>
      let u := default (-1)%Z (user_map s !! user_id t) in
      if ((0 <=? u)%Z && (0 <=? i)%Z)
      then (u, i, dampen L (quantity t)) :: interaction_entries L s tx
      else interaction_entries L s tx
  | None => interaction_entries L s tx
  end.
Proof.
  unfold interaction_entries. rewrite filter_cons.
  destruct (reverse_product_map s !! stock_code t) as [i|] eqn:Hi.
  - rewrite decide_True by eauto. simpl. rewrite Hi. simpl.
    rewrite !masked_cons.
    by destruct ((0 <=? default (-1)%Z (user_map s !! user_id t))%Z &&
                 (0 <=? i)%Z).
  - rewrite decide_False; [done |]. by intros [? ?].
Qed.

Lemma interaction_cell L s tx sh u i :
  (0 ≤ u)%Z → (0 ≤ i)%Z →
  (cell {| entries := interaction_entries L s tx; shape := sh |} u i
   == aggregated_weight L s tx u i)%Q.
Proof.
  intros Hu Hi. unfold cell, aggregated_weight. simpl.
  induction tx as [|t tx IH]; [reflexivity |].
  rewrite interaction_entries_cons, (filter_cons (counts_for s u i)).
  destruct (decide (counts_for s u i t)) as [(Hq & Hut & Hit) | Hno].
  - rewrite Hit, Hut. simpl.
    replace ((0 <=? u)%Z && (0 <=? i)%Z) with true
      by (symmetry; apply andb_true_iff; split; by apply Z.leb_le).
    rewrite filter_cons, decide_True by done. simpl.
    unfold dampen. replace (0 <? quantity t)%Z with true
      by (symmetry; by apply Z.ltb_lt).
    by rewrite IH.
  - destruct (reverse_product_map s !! stock_code t) as [i0|] eqn:Hi0;
      [| exact IH].
    simpl.
    destruct ((0 <=? default (-1)%Z (user_map s !! user_id t))%Z &&
              (0 <=? i0)%Z) eqn:Hmask; [| exact IH].
    rewrite filter_cons. simpl.
    destruct (decide ((default (-1)%Z (user_map s !! user_id t), i0) = (u, i)))
      as [Heq | Hne]; [| exact IH].
    inversion Heq as [[Hu0 Hi0']]. subst i0.
    destruct (user_map s !! user_id t) as [u0|] eqn:Hu0'; simpl in *; [| lia].
    subst u0. unfold dampen.
    destruct (0 <? quantity t)%Z eqn:Hq.
    + exfalso. apply Hno. repeat split; [by apply Z.ltb_lt | done..].
    + simpl. rewrite IH. apply Qplus_0_l.
Qed.

(** C4.  Whatever registry [s] holds and whatever the interaction
    records are, the cell (u, i) of the matrix built from the triples of
    lines 77-86 is the sum of [log1p quantity] over the interactions with
    a positive quantity whose user is registered with index [u] and whose
    item is registered with index [i]: interactions with a quantity <= 0
    and interactions with an unregistered user or item add nothing, and
    duplicates of a pair add up.  Hence a cell that is not zero has at
    least one such interaction. *)
Theorem interaction_matrix_policy L s tx sh X u i :
  mk_csr_matrix (interaction_entries L s tx) sh = Ok X →
  (0 ≤ u)%Z → (0 ≤ i)%Z →
  (cell X u i == aggregated_weight L s tx u i)%Q ∧
  (¬ (cell X u i == 0)%Q → ∃ t, t ∈ tx ∧ counts_for s u i t).
Proof.
  unfold mk_csr_matrix. destruct (forallb _ _); [| done].
  intros [= <-] Hu Hi. split; [by apply interaction_cell |].
  intros Hnz.
  destruct (filter (counts_for s u i) tx) as [|t l] eqn:Hf.
  - exfalso. apply Hnz. rewrite interaction_cell by done.
    unfold aggregated_weight. rewrite Hf. reflexivity.
  - exists t. apply and_comm, (list_elem_of_filter (counts_for s u i)).
    rewrite Hf. left.
Qed.

Lemma sum_positive (l : list Q) :
  l ≠ [] → Forall (fun x => (0 < x)%Q) l → (0 < Np.sum l)%Q.
Proof.
  intros Hne Hpos. destruct Hpos as [|x l Hx Hl]; [done |]. clear Hne.
  simpl. revert x Hx. induction Hl as [|y l Hy Hl IH]; intros x Hx; simpl.
  - by rewrite Qplus_0_r.
  - rewrite <- (Qplus_0_r 0). apply Qplus_lt_le_compat; [done |].
    apply Qlt_le_weak. by apply IH.
Qed.

(** With a dampening that is positive on positive quantities, as the
    logarithm of [1 + x] is, one interaction that counts is enough for a
    positive cell. *)
Lemma interaction_cell_positive L s tx sh u i t :
  (∀ x, (0 < x)%Z → (0 < log1p L x)%Q) →
  (0 ≤ u)%Z → (0 ≤ i)%Z →
  t ∈ tx → counts_for s u i t →
  (0 < cell {| entries := interaction_entries L s tx; shape := sh |} u i)%Q.
Proof.
  intros Hpos Hu Hi Hin Ht. rewrite interaction_cell by done.
  unfold aggregated_weight. apply sum_positive.
  - intros Hnil%fmap_nil_inv.
    assert (Hf : t ∈ filter (counts_for s u i) tx)
      by (by apply list_elem_of_filter).
    rewrite Hnil in Hf. by apply elem_of_nil in Hf.
  - apply Forall_fmap, Forall_forall.
    intros t' [(Hq & _ & _) _]%list_elem_of_filter. simpl. by apply Hpos.
Qed.

(** ** The blocks of [_train_sync], run *)

Lemma foldl_insert_lookup_elem {K V} `{Countable K} (kvs : list (K * V))
    (m : gmap K V) (k : K) (v : V) :
  foldl (fun m kv => <[kv.1 := kv.2]> m) m kvs !! k = Some v →
  (k, v) ∈ kvs ∨ m !! k = Some v.
Proof.
  revert m. induction kvs as [|[k' v'] kvs IH]; intros m; simpl; [by right |].
  intros [Hin | Hm]%IH; [left; by right |].
  destruct (decide (k' = k)) as [-> | Hne].
  - rewrite lookup_insert_eq in Hm. left. apply elem_of_cons. left. congruence.
  - rewrite lookup_insert_ne in Hm by done. by right.
Qed.

Lemma index_of_in_range (ids : list string) (id : string) (i : Z) :
  Py.dict_of ((fun p : Z * string => (p.2, p.1)) <$> Py.enumerate ids) !! id
    = Some i →
  (0 ≤ i < Z.of_nat (length ids))%Z.
Proof.
  intros [Hin | Hm]%foldl_insert_lookup_elem; [| by rewrite lookup_empty in Hm].
  apply list_elem_of_fmap in Hin as [[j x] [Heq Hin]]. simpl in Heq.
  inversion Heq; subst.
  apply elem_of_enumerate_from in Hin as [Hle Hl].
  apply lookup_lt_Some in Hl. lia.
Qed.

Lemma interaction_entries_elem L s tx e :
  e ∈ interaction_entries L s tx →
  ∃ t, t ∈ tx ∧ user_map s !! user_id t = Some e.1.1 ∧
       reverse_product_map s !! stock_code t = Some e.1.2 ∧
       e.2 = dampen L (quantity t).
Proof.
  induction tx as [|t tx IH]; [by intros ?%elem_of_nil |].
  rewrite interaction_entries_cons.
  assert (Hrest : e ∈ interaction_entries L s tx →
    ∃ t0, t0 ∈ t :: tx ∧ user_map s !! user_id t0 = Some e.1.1 ∧
          reverse_product_map s !! stock_code t0 = Some e.1.2 ∧
          e.2 = dampen L (quantity t0)).
  { intros (t0 & ? & ?)%IH. exists t0. split; [by right | done]. }
  destruct (reverse_product_map s !! stock_code t) as [i|] eqn:Hi; [| done].
  simpl.
  destruct (user_map s !! user_id t) as [u|] eqn:Hu; simpl; [| done].
  destruct ((0 <=? u)%Z && (0 <=? i)%Z); [| done].
  intros [-> | Hin]%elem_of_cons; [| by apply Hrest].
  exists t. simpl. split; [by left | done].
Qed.

Lemma interaction_entries_ext L s s' tx :
  user_map s = user_map s' →
  reverse_product_map s = reverse_product_map s' →
  interaction_entries L s tx = interaction_entries L s' tx.
Proof.
  intros Hu Hp. induction tx as [|t tx IH]; [done |].
  by rewrite !interaction_entries_cons, IH, Hu, Hp.
Qed.

Lemma snapshot_entries_in_shape L s tx pr :
  mappings s = mappings (registry tx pr) →
  mk_csr_matrix (interaction_entries L s tx)
                (length (Py.unique (user_id <$> tx)), length (_id <$> pr))
  = Ok (snapshot_matrix L tx pr).
Proof.
  intros Hm. unfold mappings in Hm. inversion Hm as [[Hu Hru Hrp Hp]].
  unfold mk_csr_matrix.
  rewrite (interaction_entries_ext L s (registry tx pr)) by done.
  replace (forallb _ _) with true; [done |].
  symmetry. apply forallb_forall. intros e He.
  apply list_elem_of_In, interaction_entries_elem in He
    as (t & _ & Hut & Hit & _).
  apply index_of_in_range in Hut, Hit.
  unfold in_shape. simpl.
  repeat (apply andb_true_iff; split); (apply Z.leb_le || apply Z.ltb_lt); lia.
Qed.

Lemma fit_factors_run L tx pr w :
  mappings (self w) = mappings (registry tx pr) →
  fit_factors L tx pr w =
  match fit_transform L 50 (snapshot_matrix L tx pr) with
  | Ok fitted =>
      ({| self :=
            set_svd_model
              (Some {| n_components := 50; components_ := Some fitted.2 |})
              (self w);
          disk := disk w |}, Ok fitted.1)
  | Raise e =>
      ({| self :=
            set_svd_model
              (Some {| n_components := 50; components_ := None |}) (self w);
          disk := disk w |}, Raise e)
  end.
Proof.
  intros Hm. unfold fit_factors. run_method.
  rewrite (snapshot_entries_in_shape L (self w) tx pr Hm).
  by destruct (fit_transform L 50 (snapshot_matrix L tx pr)).
Qed.

Lemma build_index_run L pr w :
  build_index L pr w =
  let embeddings :=
    encode L <$> ((fun p => default EmptyString (description p)) <$> pr) in
  let s := set_sentence_model true (self w) in
  if forallb (fun p => bool_decide (description p = None)) pr
  then (w, Raise KeyError)
  else
    match embeddings with
    | [] => ({| self := s; disk := disk w |}, Raise IndexError)
    | e :: _ =>
        if forallb (fun v => length v =? length e) embeddings
        then ({| self :=
                   set_faiss_index
                     (Some {| Faiss.d := length e; Faiss.xb := embeddings |}) s;
                 disk := disk w |}, Ok tt)
        else ({| self := set_faiss_index (Some (Faiss.new (length e))) s;
                 disk := disk w |}, Raise AssertionError)
    end.
Proof.
  unfold build_index. unfold bind at 1.
  destruct (forallb _ pr); [done |]. run_method.
  destruct (encode L <$> _) as [|e es] eqn:He; [done |].
  run_method. unfold Faiss.add. simpl.
  by destruct (_ && _).
Qed.

Lemma publish_run pr factors w :
  publish pr factors w =
  if decide (NoDup (_id <$> pr))
  then ({| self :=
             set_user_factors (Some factors)
               (set_product_data
                  (Py.dict_of
                     ((fun p => (_id p, default EmptyString (description p)))
                        <$> pr))
                  (self w));
           disk := disk w |}, Ok tt)
  else (w, Raise ValueError).
Proof.
  unfold publish, to_dict_index. run_method. by case_decide.
Qed.

Lemma persist_run factors w :
  (persist factors w).2 = Ok tt →
  ∃ ix, faiss_index (self w) = Some ix ∧
  persist factors w =
  ({| self := set_initialized true (self w);
      disk :=
        {| svd_model_pkl :=
             Some {| pk_model := svd_model (self w);
                     pk_user_factors := factors;
                     pk_user_map := user_map (self w);
                     pk_reverse_user_map := reverse_user_map (self w) |};
           product_index := Some ix;
           mappings_pkl :=
             Some {| pk_product_map := product_map (self w);
                     pk_reverse_product_map := reverse_product_map (self w);
                     pk_product_data := product_data (self w) |} |} |},
   Ok tt).
Proof.
  unfold persist. run_method.
  destruct (faiss_index (self w)) as [ix|]; [| done].
  intros _. by exists ix.
Qed.

Lemma train_sync_ok_nonempty L tx pr w :
  (_train_sync L tx pr w).2 = Ok tt → tx ≠ [] ∧ pr ≠ [].
Proof.
  unfold _train_sync. unfold bind at 1.
  pose proof (build_mappings_ok tx pr w) as Hok.
  destruct (build_mappings tx pr w) as [w' [[]|e]]; [| done].
  intros _. by apply Hok.
Qed.

(** A successful uninterrupted run of [_train_sync] leaves exactly the
    artifact of its snapshot in the singleton. *)
Lemma train_sync_publishes L tx pr w :
  (_train_sync L tx pr w).2 = Ok tt →
  artifact L tx pr = Some (self (_train_sync L tx pr w).1).
Proof.
  intros Hok. destruct (train_sync_ok_nonempty _ _ _ _ Hok) as [Htx Hpr].
  revert Hok.
  destruct (_train_sync L tx pr w) as [w' r] eqn:Hrun. simpl.
  intros ->. revert Hrun.
  unfold _train_sync. unfold bind at 1. rewrite build_mappings_run by done.
  cbv iota. unfold bind at 1. rewrite fit_factors_run by reflexivity.
  unfold artifact.
  destruct (fit_transform L 50 (snapshot_matrix L tx pr)) as [fitted | e];
    [| done].
  cbv iota. unfold bind at 1. rewrite build_index_run. cbv zeta.
  destruct (forallb _ pr); [done |].
  destruct (encode L <$> _) as [|e es] eqn:He; [done |].
  destruct (forallb _ _); [| done].
  cbv iota. unfold bind at 1. rewrite publish_run.
  case_decide; [| done].
  cbv iota. intros Hrun.
  match type of Hrun with
  | persist ?f ?w0 = _ =>
      destruct (persist_run f w0) as (ix & Hix & Heq);
      [by rewrite Hrun | rewrite Heq in Hrun]
  end.
  inversion Hrun. reflexivity.
Qed.

(** ** Sorting *)

Lemma insert_by_value_perm x l : Np.insert_by_value x l ≡ₚ x :: l.
Proof.
  induction l as [|y l IH]; simpl; [done |].
  destruct (Qle_bool x.2 y.2); [done |].
  rewrite IH. apply perm_swap.
Qed.

Lemma sort_by_value_perm l : Np.sort_by_value l ≡ₚ l.
Proof.
  induction l as [|x l IH]; simpl; [done |].
  by rewrite insert_by_value_perm, IH.
Qed.

Lemma nearer_le (x z : Z * Q) :
  (x.2 <= z.2)%Q → (x.1 < z.1)%Z → nearer x z.
Proof.
  intros [Hlt | Heq]%Qle_lteq Hi; [by left | by right].
Qed.

Lemma nearer_value_le (y z : Z * Q) : nearer y z → (y.2 <= z.2)%Q.
Proof.
  intros [Hlt | [Heq _]]; [by apply Qlt_le_weak |].
  rewrite Heq. apply Qle_refl.
Qed.

Lemma insert_by_value_sorted x l :
  StronglySorted nearer l →
  Forall (fun y => (x.1 < y.1)%Z) l →
  StronglySorted nearer (Np.insert_by_value x l).
Proof.
  induction l as [|y l IH]; simpl; intros Hs Hx.
  - repeat constructor.
  - apply StronglySorted_inv in Hs as [Hs Hy].
    apply Forall_cons in Hx as [Hxy Hx].
    destruct (Qle_bool x.2 y.2) eqn:Hle.
    + apply Qle_bool_iff in Hle. constructor; [by constructor |].
      constructor; [by apply nearer_le |].
      rewrite Forall_forall in Hy, Hx |- *. intros z Hz.
      apply nearer_le; [| by apply Hx].
      eapply Qle_trans; [exact Hle |]. by apply nearer_value_le, Hy.
    + constructor; [by apply IH |].
      rewrite insert_by_value_perm. constructor; [| done].
      left. apply Qnot_le_lt. intros Hle'.
      apply Qle_bool_iff in Hle'. congruence.
Qed.

Lemma sort_enumerate_sorted (a : list Q) i :
  StronglySorted nearer (Np.sort_by_value (Py.enumerate_from i a)).
Proof.
  revert i. induction a as [|x a IH]; intros i; simpl; [constructor |].
  apply insert_by_value_sorted; [apply IH |].
  rewrite sort_by_value_perm. apply Forall_forall. intros [j y] Hin.
  apply elem_of_enumerate_from in Hin as [Hle _]. simpl. lia.
Qed.

Lemma enumerate_lookup (a : list Q) (j : Z) (y : Q) :
  (j, y) ∈ Py.enumerate a ↔ (0 ≤ j)%Z ∧ a !! Z.to_nat j = Some y.
Proof.
  unfold Py.enumerate. rewrite elem_of_enumerate_from. by rewrite Z.sub_0_r.
Qed.

Lemma enumerate_indices {A} (a : list A) :
  (Py.enumerate a).*1 = Z.of_nat <$> seq 0 (length a).
Proof.
  unfold Py.enumerate. rewrite enumerate_from_fst.
  apply list_fmap_ext. intros _ n _. lia.
Qed.

(** ** Sortedness through the list operations of the serving loops *)

Lemma StronglySorted_snoc {A} (R : relation A) l x :
  StronglySorted R l → Forall (fun y => R y x) l →
  StronglySorted R (l ++ [x]).
Proof.
  induction l as [|z l IH]; simpl; intros Hs Hall; [repeat constructor |].
  apply StronglySorted_inv in Hs as [Hs Hz].
  apply Forall_cons in Hall as [Hzx Hall].
  constructor; [by apply IH |].
  apply Forall_app. split; [done |]. by constructor.
Qed.

Lemma StronglySorted_flip_reverse {A} (R : relation A) l :
  StronglySorted R l → StronglySorted (flip R) (reverse l).
Proof.
  induction 1 as [|x l Hs IH Hx]; [constructor |].
  rewrite reverse_cons. apply StronglySorted_snoc; [done |].
  by apply Forall_reverse.
Qed.

Lemma StronglySorted_take {A} (R : relation A) n l :
  StronglySorted R l → StronglySorted R (take n l).
Proof.
  revert n. induction l as [|x l IH]; intros [|n] Hs; simpl; try constructor.
  - apply IH. by apply StronglySorted_inv in Hs as [? _].
  - apply Forall_take. by apply StronglySorted_inv in Hs as [_ ?].
Qed.

Lemma StronglySorted_omap {A B} (R : relation A) (R' : relation B)
    (f : A → option B) l :
  (∀ x y x' y', x ∈ l → y ∈ l → f x = Some x' → f y = Some y' →
                R x y → R' x' y') →
  StronglySorted R l → StronglySorted R' (omap f l).
Proof.
  induction l as [|x l IH]; intros Hf Hs; simpl; [constructor |].
  apply StronglySorted_inv in Hs as [Hs Hx].
  assert (IH' : StronglySorted R' (omap f l)).
  { apply IH; [| done]. intros ? ? ? ? ? ?. apply Hf; by right. }
  destruct (f x) as [x'|] eqn:Hfx; [| done].
  constructor; [done |].
  apply Forall_forall. intros y' (y & Hy & Hfy)%list_elem_of_omap.
  rewrite Forall_forall in Hx.
  apply (Hf x y x' y'); [apply elem_of_cons; by left | apply elem_of_cons; by right
                        | done | done | by apply Hx].
Qed.

Lemma omap_cons {A B} (f : A → option B) x l :
  omap f (x :: l) =
  match f x with Some y => y :: omap f l | None => omap f l end.
Proof. reflexivity. Qed.

Lemma length_omap_le {A B} (f : A → option B) l :
  length (omap f l) ≤ length l.
Proof.
  induction l as [|x l IH]; [done |].
  rewrite omap_cons. destruct (f x); simpl; lia.
Qed.

Lemma omap_all_some {A B} (f : A → option B) (g : A → B) l :
  Forall (fun x => f x = Some (g x)) l → omap f l = g <$> l.
Proof.
  induction 1 as [|x l Hx _ IH]; [done |].
  by rewrite omap_cons, Hx, IH.
Qed.


(** ** The lazy reload *)

Lemma ensure_initialized_ready w :
  initialized (self w) = true → ensure_initialized w = (w, Ok true).
Proof. intros H. unfold ensure_initialized. run_method. by rewrite H. Qed.

Lemma ensure_initialized_flag w :
  (ensure_initialized w).2 = Ok (initialized (self (ensure_initialized w).1)).
Proof.
  unfold ensure_initialized. run_method.
  destruct (initialized (self w)) eqn:Hi; simpl; [by rewrite Hi | done].
Qed.

Lemma ensure_initialized_unpublished w :
  unpublished w → initialized (self (ensure_initialized w).1) = false.
Proof.
  intros [Hi Hfiles]. unfold ensure_initialized, load_models. run_method.
  rewrite Hi. simpl.
  destruct (svd_model_pkl (disk w)); simpl; [| done].
  destruct (product_index (disk w)); simpl; [| done].
  destruct (mappings_pkl (disk w)); simpl; [| done].
  naive_solver.
Qed.

Lemma recommend_unfold L uid k w :
  recommend L uid k w =
  let w' := (ensure_initialized w).1 in
  let s := self w' in
  if negb (initialized s) then (w', Ok [])
  else match user_map s !! uid with
       | None => (w', Ok [])
       | Some user_idx =>
           match user_factors s with
           | None => (w', Ok [])
           | Some factors =>
               match Py.getitem factors user_idx with
               | Raise e => (w', Raise e)
               | Ok user_vector =>
                   match svd_model s ≫= components_ with
                   | None => (w', Raise AttributeError)
                   | Some item_matrix =>
                       match Np.dot user_vector item_matrix with
                       | Raise e => (w', Raise e)
                       | Ok scores =>
                           (w', Ok (omap (recommend_row s scores)
                                      (Py.slice_to (reverse (argsort L scores)) k)))
                       end
                   end
               end
           end
       end.
Proof.
  unfold recommend. unfold bind at 1.
  pose proof (ensure_initialized_flag w) as Hflag.
  destruct (ensure_initialized w) as [w' r]. simpl in *. subst r.
  destruct (initialized (self w')); simpl; [| done].
  run_method.
  destruct (user_map (self w') !! uid); [| done].
  destruct (user_factors (self w')); [| done].
  run_method.
  destruct (Py.getitem _ _); [| done].
  destruct (svd_model (self w') ≫= components_); [| done].
  by destruct (Np.dot _ _).
Qed.

Lemma search_unfold L query k w :
  search L query k w =
  let w' := (ensure_initialized w).1 in
  let s := self w' in
  if negb (initialized s) then (w', Ok [])
  else match sentence_model s, faiss_index s with
       | true, Some ix =>
           match Faiss.search ix (encode L query) k with
           | Ok hits => (w', Ok (omap (search_row s) hits))
           | Raise e => (w', Raise e)
           end
       | _, _ => (w', Ok [])
       end.
Proof.
  unfold search. unfold bind at 1.
  pose proof (ensure_initialized_flag w) as Hflag.
  destruct (ensure_initialized w) as [w' r]. simpl in *. subst r.
  destruct (initialized (self w')); simpl; [| done].
  run_method.
  destruct (sentence_model (self w')); [| done].
  destruct (faiss_index (self w')); [| done].
  run_method. by destruct (Faiss.search _ _ _).
Qed.

(** C3.  In every state of the engine, [recommend] returns the empty
    list, and does not raise, when the user has no internal index in the
    mappings the call reads, or when no artifact was ever published (the
    object is not initialized and the model directory is incomplete). *)
Theorem recommend_cold_or_unpublished L uid k w :
  cold w uid ∨ unpublished w →
  (recommend L uid k w).2 = Ok [].
Proof.
  intros Hcase. rewrite recommend_unfold. cbv zeta.
  destruct (initialized (self (ensure_initialized w).1)) eqn:Hi; [| done].
  simpl. destruct Hcase as [Hcold | Hunp].
  - unfold cold in Hcold. by rewrite Hcold.
  - apply ensure_initialized_unpublished in Hunp. congruence.
Qed.

(** ** [search] *)

Lemma search_world L query k w :
  (search L query k w).1 = (ensure_initialized w).1.
Proof.
  rewrite search_unfold. cbv zeta.
  repeat (case_match; simpl); done.
Qed.


Lemma registry_product_map tx pr i code :
  product_map (registry tx pr) !! i = Some code ↔
  (0 ≤ i)%Z ∧ (_id <$> pr) !! Z.to_nat i = Some code.
Proof.
  unfold registry. simpl.
  rewrite dict_of_lookup by apply enumerate_from_NoDup.
  unfold Py.enumerate. rewrite elem_of_enumerate_from. by rewrite Z.sub_0_r.
Qed.

Lemma artifact_product_map L tx pr s :
  artifact L tx pr = Some s → product_map s = product_map (registry tx pr).
Proof.
  unfold artifact. repeat case_match; try done. by intros [= <-].
Qed.



Lemma train_sync_artifact L tx pr w0 w :
  _train_sync L tx pr w0 = (w, Ok tt) → artifact L tx pr = Some (self w).
Proof.
  intros Hrun. pose proof (train_sync_publishes L tx pr w0) as H.
  rewrite Hrun in H. by apply H.
Qed.







(** ** [recommend] *)

Lemma getitem_in_range {A} (a : list A) (i : Z) x :
  (0 ≤ i)%Z → a !! Z.to_nat i = Some x → Py.getitem a i = Ok x.
Proof.
  intros Hi Hx. unfold Py.getitem. cbv zeta.
  destruct (i <? 0)%Z eqn:Hneg; [lia |].
  by rewrite Hneg, Hx.
Qed.

Lemma dot_entry v M scores (i : nat) :
  Np.dot v M = Ok scores → i < length scores →
  Np.at_ scores (Z.of_nat i) = Np.inner v (Np.column M i).
Proof.
  unfold Np.dot. case_decide; [| done]. intros [= <-] Hi.
  rewrite length_fmap, length_seq in Hi.
  unfold Np.at_. rewrite Nat2Z.id, list_lookup_fmap, lookup_seq_lt by done.
  done.
Qed.

Lemma argsort_positions argsort (a : list Q) (idx : Z) :
  Np.argsort_contract argsort → idx ∈ argsort a →
  ∃ i : nat, idx = Z.of_nat i ∧ i < length a.
Proof.
  intros Hc Hin. destruct (Hc a) as [Hperm _]. rewrite Hperm in Hin.
  apply list_elem_of_fmap in Hin as (i & -> & Hi).
  exists i. split; [done |]. apply elem_of_seq in Hi. lia.
Qed.

Lemma recommend_row_score s scores idx r :
  recommend_row s scores idx = Some r →
  product_map s !! idx = Some (rec_stock_code r) ∧
  rec_score r = Np.at_ scores idx.
Proof.
  unfold recommend_row. destruct (product_map s !! idx); [| done].
  destruct (Py.truthy _); [| done]. by intros [= <-].
Qed.

Lemma slice_to_take {A} (l : list A) k :
  (0 ≤ k)%Z → Py.slice_to l k = take (Z.to_nat k) l.
Proof.
  intros Hk. unfold Py.slice_to.
  by replace (0 <=? k)%Z with true by (symmetry; by apply Z.leb_le).
Qed.

Lemma recommend_rows_indices s scores (g : Z → Q) l :
  Forall (fun i => Np.at_ scores i = g i) l →
  Forall2 (fun r i => product_map s !! i = Some (rec_stock_code r) ∧
                      rec_score r = g i)
          (omap (recommend_row s scores) l)
          (filter (fun i => listed s i = true) l).
Proof.
  induction 1 as [|i l Hi _ IH]; [constructor |].
  rewrite omap_cons, filter_cons.
  assert (Hcases :
    (listed s i = true ∧
     ∃ r, recommend_row s scores i = Some r ∧
          product_map s !! i = Some (rec_stock_code r) ∧
          rec_score r = Np.at_ scores i) ∨
    (listed s i = false ∧ recommend_row s scores i = None)).
  { unfold listed, recommend_row, Py.truthy.
    destruct (product_map s !! i) as [code|]; [| by right].
    destruct (negb (String.eqb code EmptyString)); [left | by right].
    split; [done |]. by eexists. }
  destruct Hcases as [[Hl (r & -> & Hcode & Hscore)] | [Hl ->]].
  - rewrite decide_True by done. constructor; [| exact IH].
    by rewrite <- Hi.
  - rewrite decide_False by (by rewrite Hl). exact IH.
Qed.

Lemma scores_entry (score : nat → Q) n (j : nat) :
  j < n → Np.at_ (score <$> seq 0 n) (Z.of_nat j) = score j.
Proof.
  intros Hj. unfold Np.at_.
  by rewrite Nat2Z.id, list_lookup_fmap, lookup_seq_lt.
Qed.

(** C1, amended.  On the artifact of a successful training run, for a
    user with internal index [u] and [k >= 0], with routines that meet
    the documented contracts of [np.argsort] and [fit_transform]: the
    score of item [i] is the inner product of row [u] of the user
    factors and column [i] of [components_]; [recommend] returns, in
    this order, the items of the first [k] positions of the reverse of
    the order in which [np.argsort] lists the scores, each with its
    stock code and its score, leaving out only positions without a
    non-empty stock code.  Hence equal scores come in the reverse of
    [np.argsort]'s order; there are at most [k] results, descending by
    score; and no item outside those [k] positions has a higher score
    than a result. *)
Theorem recommend_ranked L tx pr w0 w uid u k :
  Np.argsort_contract (argsort L) → factor_shapes L →
  _train_sync L tx pr w0 = (w, Ok tt) →
  user_map (self w) !! uid = Some u →
  (0 ≤ k)%Z →
  ∃ results user_vector item_matrix,
    recommend L uid k w = (w, Ok results) ∧
    user_factors (self w) ≫= (.!! Z.to_nat u) = Some user_vector ∧
    svd_model (self w) ≫= components_ = Some item_matrix ∧
    (Z.of_nat (length results) ≤ k)%Z ∧
    StronglySorted (fun r1 r2 => (rec_score r2 <= rec_score r1)%Q) results ∧
    Forall (fun r => ∃ i : nat,
              product_map (self w) !! Z.of_nat i = Some (rec_stock_code r) ∧
              rec_score r = Np.inner user_vector (Np.column item_matrix i))
           results ∧
    let score (i : nat) := Np.inner user_vector (Np.column item_matrix i) in
    let scores := score <$> seq 0 (Np.n_columns item_matrix) in
    let top := take (Z.to_nat k) (reverse (argsort L scores)) in
    Forall2 (fun r i => product_map (self w) !! i = Some (rec_stock_code r) ∧
                        rec_score r = score (Z.to_nat i))
            results (filter (fun i => listed (self w) i = true) top) ∧
    (∀ j, j < length scores → Z.of_nat j ∉ top →
          Forall (fun r => (score j <= rec_score r)%Q) results).
Proof.
  intros Hsort Hshape Hrun Hu Hk.
  apply train_sync_artifact in Hrun. revert Hrun Hu. unfold artifact.
  destruct w as [s dk]. cbn [self].
  destruct (fit_transform L 50 _) as [fitted|] eqn:Hfit; [| done].
  destruct (encode L <$> _) as [|e es]; [done |].
  intros [= <-]. set (s := {| svd_model := _ |}). intros Hu.
  change (user_map (registry tx pr) !! uid = Some u) in Hu.
  destruct (Hshape _ _ _ Hfit) as [Hrows Hcols]. simpl in Hrows.
  pose proof (index_of_in_range _ _ _ Hu) as Hrange.
  rewrite <- Hrows in Hrange.
  destruct (lookup_lt_is_Some_2 fitted.1 (Z.to_nat u)) as [v Hv]; [lia |].
  assert (Hlen : length v = length fitted.2).
  { rewrite Forall_forall in Hcols. apply Hcols.
    by eapply list_elem_of_lookup_2. }
  set (score := fun i : nat => Np.inner v (Np.column fitted.2 i)).
  set (scores := score <$> seq 0 (Np.n_columns fitted.2)).
  assert (Hdot : Np.dot v fitted.2 = Ok scores).
  { unfold Np.dot. by rewrite decide_True. }
  set (top := take (Z.to_nat k) (reverse (argsort L scores))).
  assert (Hpos : ∀ idx, idx ∈ top →
            ∃ i : nat, idx = Z.of_nat i ∧ i < length scores).
  { intros idx Hin. apply subseteq_take in Hin. rewrite elem_of_reverse in Hin.
    by apply (argsort_positions _ _ _ Hsort). }
  assert (Hat : ∀ j, j < length scores → Np.at_ scores (Z.of_nat j) = score j).
  { intros j Hj. unfold scores in *. rewrite length_fmap, length_seq in Hj.
    by apply scores_entry. }
  exists (omap (recommend_row s scores) top), v, fitted.2.
  split; [| split; [| split; [| split; [| split; [| split]]]]].
  - rewrite recommend_unfold, ensure_initialized_ready by done.
    cbv zeta. cbn [fst self initialized negb s user_factors svd_model].
    change (user_map _ !! uid) with (user_map (registry tx pr) !! uid).
    rewrite Hu.
    rewrite (getitem_in_range _ _ v) by (done || lia).
    cbn [mbind option_bind components_]. rewrite Hdot.
    by rewrite slice_to_take.
  - cbn [user_factors s mbind option_bind]. exact Hv.
  - done.
  - pose proof (length_omap_le (recommend_row s scores) top) as H1.
    unfold top in H1 at 2. rewrite length_take in H1. lia.
  - destruct (Hsort scores) as [_ Hs].
    apply StronglySorted_flip_reverse, (StronglySorted_take _ (Z.to_nat k)) in Hs.
    fold top in Hs. revert Hs. apply StronglySorted_omap.
    intros i j r1 r2 _ _ [_ ->]%recommend_row_score [_ ->]%recommend_row_score.
    done.
  - apply Forall_forall. intros r (idx & Hin & Hrow)%list_elem_of_omap.
    apply recommend_row_score in Hrow as [Hcode ->].
    destruct (Hpos _ Hin) as (i & -> & Hi).
    exists i. split; [done |]. by apply Hat.
  - cbn [self]. fold score. fold scores. fold top. split.
    + apply recommend_rows_indices. apply Forall_forall. intros idx Hin.
      destruct (Hpos _ Hin) as (i & -> & Hi). rewrite Nat2Z.id. by apply Hat.
    + intros j Hj Hout. apply Forall_forall.
      intros r (idx & Hin & Hrow)%list_elem_of_omap.
      apply recommend_row_score in Hrow as [_ ->].
      assert (Hle : (Np.at_ scores (Z.of_nat j) <= Np.at_ scores idx)%Q);
        [| by rewrite (Hat j Hj) in Hle].
      destruct (Hsort scores) as [Hperm Hs].
      apply StronglySorted_flip_reverse in Hs.
      assert (Hj' : Z.of_nat j ∈ reverse (argsort L scores)).
      { rewrite elem_of_reverse, Hperm. apply list_elem_of_fmap_2.
        apply elem_of_seq. lia. }
      rewrite <- (take_drop (Z.to_nat k) (reverse (argsort L scores)))
        in Hs, Hj'.
      fold top in Hs, Hj'. apply elem_of_app in Hj' as [Hj' | Hj']; [done |].
      exact (StronglySorted_app_1_elem_of _ _ _ idx (Z.of_nat j) Hs Hin Hj').
Qed.

(** ** What a successful run leaves behind *)

Lemma train_sync_ok_well_formed L tx pr w :
  (_train_sync L tx pr w).2 = Ok tt → well_formed tx pr.
Proof.
  intros Hok. destruct (train_sync_ok_nonempty _ _ _ _ Hok) as [Htx Hpr].
  split; [done |]. split; [done |]. revert Hok.
  unfold _train_sync. unfold bind at 1. rewrite build_mappings_run by done.
  cbv iota. unfold bind at 1. rewrite fit_factors_run by reflexivity.
  destruct (fit_transform L 50 (snapshot_matrix L tx pr)) as [fitted | e];
    [| done].
  cbv iota. unfold bind at 1. rewrite build_index_run. cbv zeta.
  destruct (forallb _ pr); [done |].
  destruct (encode L <$> _) as [|e es]; [done |].
  destruct (forallb _ _); [| done].
  cbv iota. unfold bind at 1. rewrite publish_run.
  by case_decide.
Qed.

Lemma train_sync_persists L tx pr w0 w :
  _train_sync L tx pr w0 = (w, Ok tt) → disk w = persisted (self w).
Proof.
  intros Hrun.
  assert (Hok : (_train_sync L tx pr w0).2 = Ok tt) by (by rewrite Hrun).
  destruct (train_sync_ok_nonempty _ _ _ _ Hok) as [Htx Hpr].
  revert Hrun.
  unfold _train_sync. unfold bind at 1. rewrite build_mappings_run by done.
  cbv iota. unfold bind at 1. rewrite fit_factors_run by reflexivity.
  destruct (fit_transform L 50 (snapshot_matrix L tx pr)) as [fitted | e];
    [| done].
  cbv iota. unfold bind at 1. rewrite build_index_run. cbv zeta.
  destruct (forallb _ pr); [done |].
  destruct (encode L <$> _) as [|e es]; [done |].
  destruct (forallb _ _); [| done].
  cbv iota. unfold bind at 1. rewrite publish_run.
  case_decide; [| done].
  cbv iota. intros Hrun.
  match type of Hrun with
  | persist ?f ?w1 = _ =>
      destruct (persist_run f w1) as (ix & Hix & Heq);
      [by rewrite Hrun | rewrite Heq in Hrun]
  end.
  inversion Hrun. cbn in Hix. inversion Hix. reflexivity.
Qed.

(** A process started on the model directory a successful run left
    behind serves the artifact of that run. *)
Lemma restart_restores L tx pr w0 w :
  _train_sync L tx pr w0 = (w, Ok tt) →
  ensure_initialized {| self := __init__; disk := disk w |} = (w, Ok true).
Proof.
  intros Hrun. pose proof (train_sync_persists _ _ _ _ _ Hrun) as Hdisk.
  pose proof (train_sync_artifact _ _ _ _ _ Hrun) as Hart.
  destruct w as [s dk]. cbn [self disk] in *. subst dk.
  revert Hart. unfold artifact.
  destruct (fit_transform L 50 _) as [fitted|]; [| done].
  destruct (encode L <$> _) as [|e es]; [done |].
  intros [= <-]. reflexivity.
Qed.

(** ** The sample routines meet the contracts *)

Lemma StronglySorted_fmap_elem {A B} (R : relation A) (R' : relation B)
    (f : A → B) l :
  (∀ x y, x ∈ l → y ∈ l → R x y → R' (f x) (f y)) →
  StronglySorted R l → StronglySorted R' (f <$> l).
Proof.
  induction l as [|x l IH]; intros Hf Hs; [constructor |].
  apply StronglySorted_inv in Hs as [Hs Hx]. rewrite fmap_cons.
  constructor.
  - apply IH; [| done]. intros y z Hy Hz. apply Hf; by right.
  - apply Forall_fmap, Forall_forall. intros y Hy. simpl.
    rewrite Forall_forall in Hx. apply Hf; [by left | by right | by apply Hx].
Qed.

Lemma stable_argsort_contract : Np.argsort_contract Np.stable_argsort.
Proof.
  intros a. unfold Np.stable_argsort. split.
  - by rewrite sort_by_value_perm, enumerate_indices.
  - eapply StronglySorted_fmap_elem; [| apply sort_enumerate_sorted].
    intros [i x] [j y] Hx Hy Hn. simpl.
    rewrite sort_by_value_perm in Hx, Hy.
    apply enumerate_lookup in Hx as [_ Hx], Hy as [_ Hy].
    unfold Np.at_. rewrite Hx, Hy. simpl. by apply nearer_value_le in Hn.
Qed.

Lemma sample_factor_shapes : factor_shapes Sample.libs.
Proof.
  intros n X fitted. simpl. unfold Sample.fit_transform.
  case_decide; [| done]. intros [= <-]. simpl.
  rewrite !length_fmap, !length_seq. split; [done |].
  apply Forall_fmap, Forall_forall. intros r _. simpl.
  unfold Sample.dense_row. by rewrite length_fmap, length_seq.
Qed.


(** ** [train_model_task] *)

Lemma train_model_task_trains L db w :
  transactions db ≠ [] →
  train_model_task L db w = _train_sync L (transactions db) (products db) w.
Proof. unfold train_model_task, train. by destruct (transactions db). Qed.

Lemma persist_returns factors w :
  is_Some (faiss_index (self w)) → (persist factors w).2 = Ok tt.
Proof. intros [ix Hix]. unfold persist. run_method. by rewrite Hix. Qed.

(** The outcome of a run as a function of the snapshot and the
    routines. *)
Lemma train_sync_result L tx pr w :
  tx ≠ [] → pr ≠ [] →
  (_train_sync L tx pr w).2 =
  match fit_transform L 50 (snapshot_matrix L tx pr) with
  | Raise e => Raise e
  | Ok _ =>
      if forallb (fun p => bool_decide (description p = None)) pr
      then Raise KeyError
      else
        match encode L <$> ((fun p => default EmptyString (description p)) <$> pr)
        with
        | [] => Raise IndexError
        | e :: es =>
            if forallb (fun v => length v =? length e) (e :: es)
            then if decide (NoDup (_id <$> pr)) then Ok tt else Raise ValueError
            else Raise AssertionError
        end
  end.
Proof.
  intros Htx Hpr.
  unfold _train_sync. unfold bind at 1. rewrite build_mappings_run by done.
  cbv iota. unfold bind at 1. rewrite fit_factors_run by reflexivity.
  destruct (fit_transform L 50 (snapshot_matrix L tx pr)) as [fitted | e];
    [| done].
  cbv iota. unfold bind at 1. rewrite build_index_run. cbv zeta.
  destruct (forallb _ pr); [done |].
  destruct (encode L <$> _) as [|e es]; [done |].
  destruct (forallb _ _); [| done].
  cbv iota. unfold bind at 1. rewrite publish_run.
  case_decide; [| done].
  cbv iota. by apply persist_returns.
Qed.

Lemma train_sync_no_columns L tx pr w :
  tx = [] ∨ pr = [] → (_train_sync L tx pr w).2 = Raise KeyError.
Proof. intros [-> | ->]; [done | by destruct tx]. Qed.

(** C5, amended.  With no transaction in the snapshot,
    [train_model_task] returns without training and without raising: the
    singleton and the model directory are what they were.  With any
    transaction at all it runs [_train_sync] on the snapshot, and
    [_train_sync] does not inspect the interaction matrix: whatever its
    cells are, the matrix goes to [fit_transform]; if that raises, the
    run ends with the same exception, and if it returns, how the run
    ends is decided by the products alone (a description column, vectors
    of one dimension, distinct keys).  No outcome signals insufficient
    data, and a run that returns has published the artifact of the
    snapshot. *)
Theorem train_model_task_skips_empty L db w :
  (transactions db = [] → train_model_task L db w = (w, Ok tt)) ∧
  (transactions db ≠ [] →
   let tx := transactions db in
   let pr := products db in
   let X := snapshot_matrix L tx pr in
   let after := train_model_task L db w in
   after = _train_sync L tx pr w ∧
   (pr = [] → after.2 = Raise KeyError) ∧
   (pr ≠ [] →
    after.2 =
    match fit_transform L 50 X with
    | Raise e => Raise e
    | Ok _ =>
        if forallb (fun p => bool_decide (description p = None)) pr
        then Raise KeyError
        else
          match encode L <$> ((fun p => default EmptyString (description p)) <$> pr)
          with
          | [] => Raise IndexError
          | e :: es =>
              if forallb (fun v => length v =? length e) (e :: es)
              then if decide (NoDup (_id <$> pr)) then Ok tt
                   else Raise ValueError
              else Raise AssertionError
          end
    end) ∧
   (after.2 = Ok tt → artifact L tx pr = Some (self after.1))).
Proof.
  split; [unfold train_model_task; by intros -> |].
  intros Hne tx pr X after. unfold after.
  rewrite (train_model_task_trains L db w Hne). fold tx pr.
  split; [done |]. split; [| split].
  - intros Hpr. apply train_sync_no_columns. by right.
  - intros Hpr. by apply train_sync_result.
  - apply train_sync_publishes.
Qed.

Lemma train_model_task_skips_empty_witness :
  train_model_task Sample.libs Sample.no_transactions Sample.trained
    = (Sample.trained, Ok tt) ∧
  (train_model_task Sample.libs Sample.returns_only Sample.trained).2 = Ok tt.
Proof.
  split.
  - by apply (train_model_task_skips_empty Sample.libs Sample.no_transactions
                Sample.trained).
  - destruct (train_model_task_skips_empty Sample.libs Sample.returns_only
                Sample.trained) as [_ Htrain].
    destruct (Htrain ltac:(discriminate)) as (_ & _ & Hout & _).
    rewrite Hout by discriminate. vm_compute. reflexivity.
Defined.

(** A snapshot whose only transaction is a return has an interaction
    matrix without a nonzero cell, and yet training runs to the end and
    replaces the registry of the artifact published before. *)
Lemma returns_only_snapshot_is_trained :
  let db := Sample.returns_only in
  let X := snapshot_matrix Sample.libs (transactions db) (products db) in
  let after := train_model_task Sample.libs db Sample.trained in
  (∀ u i, (cell X u i == 0)%Q) ∧
  after.2 = Ok tt ∧
  user_map (self Sample.trained) !! "U1" = Some 0%Z ∧
  user_map (self after.1) !! "U1" = None.
Proof.
  split; [| split; [| split]]; try (vm_compute; reflexivity).
  intros u i. unfold cell.
  replace (entries _) with [(0%Z, 0%Z, 0%Q)] by (vm_compute; reflexivity).
  rewrite filter_cons. case_decide; [| done]. reflexivity.
Qed.

Lemma train_sync_decomposition_raises L tx pr w e :
  tx ≠ [] → pr ≠ [] →
  fit_transform L 50 (snapshot_matrix L tx pr) = Raise e →
  _train_sync L tx pr w =
  ({| self :=
        set_svd_model (Some {| n_components := 50; components_ := None |})
          (self (build_mappings tx pr w).1);
      disk := disk w |}, Raise e).
Proof.
  intros Htx Hpr He. unfold _train_sync. unfold bind at 1.
  rewrite build_mappings_run by done. cbv iota. unfold bind at 1.
  rewrite fit_factors_run by reflexivity. by rewrite He.
Qed.

(** C7, amended.  Training asks the decomposition for rank 50 whatever
    the numbers of users and items are.  If [fit_transform] raises for
    that rank, training fails with the same exception and leaves the
    unfitted model in [svd_model]; if training succeeds, the factors it
    publishes are those [fit_transform] returned for rank 50. *)
Theorem train_sync_rank_fixed L tx pr w :
  tx ≠ [] → pr ≠ [] →
  let X := snapshot_matrix L tx pr in
  let after := _train_sync L tx pr w in
  (∀ e, fit_transform L 50 X = Raise e →
        after.2 = Raise e ∧
        svd_model (self after.1)
          = Some {| n_components := 50; components_ := None |}) ∧
  (after.2 = Ok tt →
   ∃ fitted, fit_transform L 50 X = Ok fitted ∧
     svd_model (self after.1)
       = Some {| n_components := 50; components_ := Some fitted.2 |} ∧
     user_factors (self after.1) = Some fitted.1).
Proof.
  intros Htx Hpr X after. split.
  - intros e He. unfold after.
    rewrite (train_sync_decomposition_raises L tx pr w e Htx Hpr He).
    rewrite build_mappings_run by done. done.
  - intros Hok. pose proof (train_sync_publishes L tx pr w Hok) as Hart.
    fold after in Hart. revert Hart. unfold artifact. fold X.
    destruct (fit_transform L 50 X) as [fitted|]; [| done].
    destruct (encode L <$> _); [done |].
    intros [= <-]. by exists fitted.
Qed.

Lemma train_sync_rank_fixed_witness :
  (_train_sync Sample.libs (transactions Sample.tiny)
     (products Sample.tiny) Sample.new_world).2 = Raise ValueError.
Proof.
  apply (train_sync_rank_fixed Sample.libs (transactions Sample.tiny)
           (products Sample.tiny) Sample.new_world);
    [discriminate | discriminate | vm_compute; reflexivity].
Defined.

(** One user and one product: the rank is not reduced to 1, the
    decomposition refuses rank 50 and training fails. *)
Lemma small_catalogue_training_fails :
  let db := Sample.tiny in
  shape (snapshot_matrix Sample.libs (transactions db) (products db)) = (1, 1) ∧
  (_train_sync Sample.libs (transactions db) (products db)
     Sample.new_world).2 = Raise ValueError.
Proof. split; vm_compute; reflexivity. Qed.

(** ** The server process *)

Lemma run_app L srv t1 t2 : run L srv (t1 ++ t2) = run L (run L srv t1) t2.
Proof. apply foldl_app. Qed.

Lemma run_task_at L w db ts t n :
  n = length ts →
  run_task L n {| world := w; database := db; tasks := ts ++ [t] |} =
  {| world := (task_step L db t w).1; database := db;
     tasks := ts ++ [(task_step L db t w).2] |}.
Proof.
  intros ->. unfold run_task. simpl.
  rewrite lookup_app_r, Nat.sub_diag by done. simpl.
  rewrite insert_app_r_alt, Nat.sub_diag by done. done.
Qed.

Lemma iter_task_S L db n t w :
  iter_task L db (S n) t w =
  iter_task L db n (task_step L db t w).2 (task_step L db t w).1.
Proof. simpl. by destruct (task_step L db t w). Qed.

Lemma run_tasks_last L w db ts t n :
  run L {| world := w; database := db; tasks := ts ++ [t] |}
        (replicate n (RunTask (length ts))) =
  {| world := (iter_task L db n t w).1; database := db;
     tasks := ts ++ [(iter_task L db n t w).2] |}.
Proof.
  revert w t. induction n as [|n IH]; intros w t; [done |].
  rewrite iter_task_S. cbn [replicate run foldl handle].
  rewrite run_task_at by done. apply IH.
Qed.

Lemma iter_task_died L db n e w : iter_task L db n (Died e) w = (w, Died e).
Proof. induction n; simpl; auto. Qed.

Lemma iter_task_returned L db n w : iter_task L db n Returned w = (w, Returned).
Proof. induction n; simpl; auto. Qed.

(** Six uninterrupted blocks of a fresh task are one call of
    [train_model_task]. *)
Lemma iter_task_alone L db w :
  iter_task L db 6 Fetch w =
  ((train_model_task L db w).1,
   match (train_model_task L db w).2 with
   | Ok _ => Returned
   | Raise e => Died e
   end).
Proof.
  unfold train_model_task, train, _train_sync, bind.
  rewrite iter_task_S. cbn [task_step].
  destruct (transactions db) as [|t tx];
    [by rewrite iter_task_returned |].
  cbn [fst snd]. rewrite iter_task_S. cbn [task_step].
  destruct (build_mappings (t :: tx) (products db) w) as [w1 [[]|e]];
    cbn [continue_with fst snd]; [| by rewrite iter_task_died].
  rewrite iter_task_S. cbn [task_step].
  destruct (fit_factors L (t :: tx) (products db) w1) as [w2 [factors|e]];
    cbn [continue_with fst snd]; [| by rewrite iter_task_died].
  rewrite iter_task_S. cbn [task_step].
  destruct (build_index L (products db) w2) as [w3 [[]|e]];
    cbn [continue_with fst snd]; [| by rewrite iter_task_died].
  rewrite iter_task_S. cbn [task_step].
  destruct (publish (products db) factors w3) as [w4 [[]|e]];
    cbn [continue_with fst snd]; [| by rewrite iter_task_died].
  rewrite iter_task_S. cbn [task_step].
  by destruct (persist factors w4) as [w5 [[]|e]].
Qed.

Lemma post_then_run_alone L srv :
  run L srv (PostTrain :: replicate 6 (RunTask (length (tasks srv)))) =
  {| world := (train_model_task L (database srv) (world srv)).1;
     database := database srv;
     tasks := tasks srv ++
       [match (train_model_task L (database srv) (world srv)).2 with
        | Ok _ => Returned
        | Raise e => Died e
        end] |}.
Proof.
  destruct srv as [w db ts]. cbn [run foldl handle trigger_training fst].
  cbn [world database tasks].
  change (foldl (handle L) ?s ?l) with (run L s l).
  rewrite run_tasks_last, iter_task_alone. done.
Qed.

Lemma recommend_world L uid k w :
  (recommend L uid k w).1 = (ensure_initialized w).1.
Proof.
  rewrite recommend_unfold. cbv zeta.
  repeat (case_match; simpl); done.
Qed.

Lemma task_step_database L db db' t w :
  t ≠ Fetch → task_step L db t w = task_step L db' t w.
Proof. by destruct t. Qed.

Lemma task_step_not_fetch L db t w :
  t ≠ Fetch → (task_step L db t w).2 ≠ Fetch.
Proof.
  destruct t; try done; intros _; simpl; unfold continue_with;
    repeat case_match; simplify_eq; done.
Qed.






(** C9, amended.  Every request to /train gets the same reply and adds
    a task, whatever the tasks in progress, which it leaves untouched;
    with a non-empty transactions collection, for every [n] there is a
    run of the server after which [n] builds are inside [_train_sync] at
    the same time. *)
Theorem every_post_starts_a_build L db :
  (∀ srv, (trigger_training srv).2 = "Training started in background." ∧
          tasks (trigger_training srv).1 = tasks srv ++ [Fetch] ∧
          world (trigger_training srv).1 = world srv) ∧
  (transactions db ≠ [] →
   ∀ n, let srv := run L (boot db) (pile_up n) in
        tasks srv = replicate n (BuildMappings (transactions db) (products db)) ∧
        length (filter (fun t => building t = true) (tasks srv)) = n).
Proof.
  split; [done |]. intros Hne n.
  assert (Hrun : run L (boot db) (pile_up n) =
    {| world := world (boot db); database := db;
       tasks := replicate n (BuildMappings (transactions db) (products db)) |}).
  { induction n as [|n IH]; [done |].
    cbn [pile_up]. rewrite run_app, IH.
    cbn [run foldl handle trigger_training fst world database tasks].
    rewrite run_task_at by (by rewrite length_replicate). cbn [task_step].
    destruct (transactions db) as [|t tx] eqn:Htx; [done |].
    cbn [fst snd]. f_equal.
    rewrite <- Htx. by rewrite <- replicate_S_end. }
  cbv zeta. rewrite Hrun. cbn [tasks]. split; [done |].
  clear. induction n as [|n IH]; [done |].
  cbn [replicate]. rewrite filter_cons. cbn [building].
  rewrite decide_True by done. cbn [length]. by rewrite IH.
Qed.

(** ** Instances on the sample data *)

Lemma sample_trained :
  _train_sync Sample.libs (transactions Sample.db1) (products Sample.db1)
              Sample.new_world = (Sample.trained, Ok tt).
Proof. vm_compute. reflexivity. Qed.

Lemma recommend_ranked_witness :
  let w := Sample.trained in
  ∃ results user_vector item_matrix,
    recommend Sample.libs "U1" 3 w = (w, Ok results) ∧
    user_factors (self w) ≫= (.!! Z.to_nat 0) = Some user_vector ∧
    svd_model (self w) ≫= components_ = Some item_matrix ∧
    (Z.of_nat (length results) ≤ 3)%Z ∧
    StronglySorted (fun r1 r2 => (rec_score r2 <= rec_score r1)%Q) results ∧
    Forall (fun r => ∃ i : nat,
              product_map (self w) !! Z.of_nat i = Some (rec_stock_code r) ∧
              rec_score r = Np.inner user_vector (Np.column item_matrix i))
           results ∧
    let score (i : nat) := Np.inner user_vector (Np.column item_matrix i) in
    let scores := score <$> seq 0 (Np.n_columns item_matrix) in
    let top := take (Z.to_nat 3) (reverse (argsort Sample.libs scores)) in
    Forall2 (fun r i => product_map (self w) !! i = Some (rec_stock_code r) ∧
                        rec_score r = score (Z.to_nat i))
            results (filter (fun i => listed (self w) i = true) top) ∧
    (∀ j, j < length scores → Z.of_nat j ∉ top →
          Forall (fun r => (score j <= rec_score r)%Q) results).
Proof.
  apply (recommend_ranked Sample.libs (transactions Sample.db1)
           (products Sample.db1) Sample.new_world Sample.trained "U1" 0 3).
  - apply stable_argsort_contract.
  - apply sample_factor_shapes.
  - apply sample_trained.
  - vm_compute. reflexivity.
  - lia.
Defined.

(** All fifty products have score 0 for this user.  Asked for fifty
    results, [recommend] lists the product with the highest internal
    index first and the one with index 0 last. *)
Lemma recommend_ties_higher_index_first :
  let s := self Sample.trained_ties in
  match (recommend Sample.libs "U2" 50 Sample.trained_ties).2 with
  | Ok results =>
      length results = 50 ∧
      head results =
        Some {| rec_stock_code := "P49"; rec_score := 0;
                rec_name := Some "item P49" |} ∧
      last results =
        Some {| rec_stock_code := "P00"; rec_score := 0;
                rec_name := Some "item P00" |}
  | Raise _ => False
  end ∧
  (train_model_task Sample.libs Sample.db_ties Sample.new_world).2 = Ok tt ∧
  user_map s !! "U2" = Some 1%Z ∧
  reverse_product_map s !! "P49" = Some 49%Z ∧
  reverse_product_map s !! "P00" = Some 0%Z.
Proof. vm_compute. repeat split; reflexivity. Qed.



Lemma recommend_cold_or_unpublished_witness :
  (recommend Sample.libs "nobody" 5 Sample.trained).2 = Ok [] ∧
  (recommend Sample.libs "U1" 5 Sample.new_world).2 = Ok [].
Proof.
  split.
  - apply (recommend_cold_or_unpublished Sample.libs "nobody" 5 Sample.trained).
    left. vm_compute. reflexivity.
  - apply (recommend_cold_or_unpublished Sample.libs "U1" 5 Sample.new_world).
    right. split; [reflexivity | left; reflexivity].
Defined.

Lemma interaction_matrix_policy_witness :
  let s := self Sample.trained in
  let X := {| entries := [(0%Z, 0%Z, 1%Q)]; shape := (1, 50) |} in
  (cell X 0 0
   == aggregated_weight Sample.libs s (transactions Sample.db2) 0 0)%Q ∧
  (¬ (cell X 0 0 == 0)%Q →
   ∃ t, t ∈ transactions Sample.db2 ∧ counts_for s 0 0 t).
Proof.
  apply (interaction_matrix_policy Sample.libs (self Sample.trained)
           (transactions Sample.db2) (1, 50));
    [vm_compute; reflexivity | lia | lia].
Defined.

Lemma train_sync_mappings_bijective_witness :
  let s :=
    self (_train_sync Sample.libs (transactions Sample.db2)
            (products Sample.db2) Sample.new_world).1 in
  bijective (user_map s) (reverse_user_map s)
            (user_id <$> transactions Sample.db2) ∧
  bijective (reverse_product_map s) (product_map s)
            (_id <$> products Sample.db2).
Proof.
  apply (train_sync_mappings_bijective Sample.libs (transactions Sample.db2)
           (products Sample.db2) Sample.new_world).
  apply (bool_decide_unpack _). vm_compute. exact I.
Defined.




Lemma every_post_starts_a_build_witness :
  let srv := run Sample.libs (boot Sample.db1) (pile_up 3) in
  tasks srv = replicate 3 (BuildMappings (transactions Sample.db1)
                                         (products Sample.db1)) ∧
  length (filter (fun t => building t = true) (tasks srv)) = 3.
Proof.
  apply (every_post_starts_a_build Sample.libs Sample.db1). discriminate.
Defined.

(** A request that arrives while a build is in progress is accepted, and
    the two builds then advance in turns. *)
Lemma second_build_accepted_while_building :
  building <$> tasks Sample.busy = [true] ∧
  (trigger_training Sample.busy).2 = "Training started in background." ∧
  building <$> tasks (run Sample.libs (trigger_training Sample.busy).1
                          [RunTask 1; RunTask 1; RunTask 0; RunTask 1])
    = [true; true].
Proof. repeat split; vm_compute; reflexivity. Qed.

(** ** The ordering examples of the specification, computed *)

Example score_ordering :
  (recommend SpecExample.libs "u1" 2 SpecExample.scoring).2 =
    Ok [ {| rec_stock_code := "A"; rec_score := 2; rec_name := None |};
         {| rec_stock_code := "C"; rec_score := 1; rec_name := None |} ] ∧
  (recommend SpecExample.libs "u2" 1 SpecExample.scoring).2 =
    Ok [ {| rec_stock_code := "B"; rec_score := 3; rec_name := None |} ].
Proof. split; vm_compute; reflexivity. Qed.

Example search_ordering :
  match (search SpecExample.libs "query" 2 SpecExample.searching).2 with
  | Ok hits =>
      (fun h => (hit_stock_code h, Qred (hit_score h))) <$> hits
      = [("A", 1 # 50); ("B", 41 # 50)]
  | Raise _ => False
  end.
Proof. vm_compute. reflexivity. Qed.

(** ** The model directory across restarts and failed runs *)

Lemma recommend_after_reload L uid k w w' :
  (ensure_initialized w).1 = (ensure_initialized w').1 →
  recommend L uid k w = recommend L uid k w'.
Proof. intros H. by rewrite !recommend_unfold, H. Qed.

Lemma search_after_reload L query k w w' :
  (ensure_initialized w).1 = (ensure_initialized w').1 →
  search L query k w = search L query k w'.
Proof. intros H. by rewrite !search_unfold, H. Qed.

Lemma artifact_initialized L tx pr s :
  artifact L tx pr = Some s → initialized s = true.
Proof.
  unfold artifact. repeat case_match; try done. by intros [= <-].
Qed.

(** Restart round trip.  A process that starts with a fresh object on
    the model directory a successful [_train_sync] left behind answers
    every [recommend] and every [search] call exactly as the process
    that trained does, and ends in the same world: what the three files
    hold is all that serving reads. *)
Theorem restart_serves_the_same L tx pr w0 w :
  _train_sync L tx pr w0 = (w, Ok tt) →
  let fresh := {| self := __init__; disk := disk w |} in
  (∀ uid k, recommend L uid k fresh = recommend L uid k w) ∧
  (∀ query k, search L query k fresh = search L query k w).
Proof.
  intros Hrun fresh.
  assert (Hsame : (ensure_initialized fresh).1 = (ensure_initialized w).1).
  { unfold fresh. rewrite (restart_restores _ _ _ _ _ Hrun).
    rewrite ensure_initialized_ready; [done |].
    eapply artifact_initialized, train_sync_artifact, Hrun. }
  split; intros; [by apply recommend_after_reload
                 | by apply search_after_reload].
Qed.

Lemma restart_serves_the_same_witness :
  let fresh := {| self := __init__; disk := disk Sample.trained |} in
  (∀ uid k, recommend Sample.libs uid k fresh
            = recommend Sample.libs uid k Sample.trained) ∧
  (∀ query k, search Sample.libs query k fresh
              = search Sample.libs query k Sample.trained).
Proof. exact (restart_serves_the_same _ _ _ _ _ sample_trained). Defined.

(** The lazy reload of [recommend] and [search] on an object that is not
    initialized: it never raises, it leaves the model directory as it
    is, and the object is initialized afterwards exactly when all three
    files are there. *)
Theorem lazy_reload_ready_iff w :
  initialized (self w) = false →
  let after := ensure_initialized w in
  (after.2 = Ok true ↔
   is_Some (svd_model_pkl (disk w)) ∧ is_Some (product_index (disk w)) ∧
   is_Some (mappings_pkl (disk w))) ∧
  (after.2 = Ok true ∨ after.2 = Ok false) ∧
  disk after.1 = disk w.
Proof.
  intros Hi. unfold ensure_initialized, load_models. run_method.
  rewrite Hi. simpl.
  destruct (svd_model_pkl (disk w)) as [m|]; simpl.
  2: { rewrite Hi. split; [| by auto].
       split; [done | intros ([? [=]] & _)]. }
  destruct (product_index (disk w)) as [ix|]; simpl.
  2: { rewrite Hi. split; [| by auto].
       split; [done | intros (_ & [? [=]] & _)]. }
  destruct (mappings_pkl (disk w)) as [mp|]; simpl.
  2: { rewrite Hi. split; [| by auto].
       split; [done | intros (_ & _ & [? [=]])]. }
  split; [| by auto]. split; [eauto | done].
Qed.

Lemma lazy_reload_ready_iff_witness :
  (ensure_initialized
     {| self := __init__;
        disk := {| svd_model_pkl := svd_model_pkl (disk Sample.trained);
                   product_index := None;
                   mappings_pkl := mappings_pkl (disk Sample.trained) |} |}).2
  = Ok false.
Proof.
  match goal with
  | |- (ensure_initialized ?w).2 = _ =>
      destruct (lazy_reload_ready_iff w eq_refl) as (Hiff & [Ht | Hf] & _)
  end.
  - apply Hiff in Ht. destruct Ht as (_ & [? Hix] & _). discriminate Hix.
  - exact Hf.
Defined.

Lemma keeps_disk_ret {A} (a : A) : keeps_disk (ret a).
Proof. by intros w. Qed.

Lemma keeps_disk_raise {A} e : keeps_disk (raise (A := A) e).
Proof. by intros w. Qed.

Lemma keeps_disk_lift {A} (r : result A) : keeps_disk (lift r).
Proof. by intros w. Qed.

Lemma keeps_disk_get_self : keeps_disk get_self.
Proof. by intros w. Qed.

Lemma keeps_disk_update f : keeps_disk (update f).
Proof. by intros w. Qed.

Lemma keeps_disk_bind {A B} (m : M A) (k : A → M B) :
  keeps_disk m → (∀ a, keeps_disk (k a)) → keeps_disk (bind m k).
Proof.
  intros Hm Hk w. unfold bind. specialize (Hm w).
  destruct (m w) as [w' [a | e]]; simpl in *; [| done].
  by rewrite Hk.
Qed.

Ltac disk_frame :=
  repeat first
    [ apply keeps_disk_ret | apply keeps_disk_raise | apply keeps_disk_lift
    | apply keeps_disk_get_self
    | apply keeps_disk_update
    | apply keeps_disk_bind; [| intros ?]
    | progress case_match ].

Lemma load_models_keeps_disk : keeps_disk load_models.
Proof. unfold load_models. disk_frame. Qed.

Lemma ensure_initialized_keeps_disk : keeps_disk ensure_initialized.
Proof.
  intros w. unfold ensure_initialized. run_method.
  destruct (initialized (self w)); [done |]. apply load_models_keeps_disk.
Qed.

(** Serving reads the model directory and never writes it: after a
    [recommend] or a [search] call, returned or raised, the three files
    are what they were; and an initialized object is itself left as it
    was. *)
Theorem serving_keeps_the_directory L w :
  (∀ uid k, disk (recommend L uid k w).1 = disk w) ∧
  (∀ query k, disk (search L query k w).1 = disk w) ∧
  (initialized (self w) = true →
   (∀ uid k, (recommend L uid k w).1 = w) ∧
   (∀ query k, (search L query k w).1 = w)).
Proof.
  split; [| split].
  - intros uid k. rewrite recommend_world. apply ensure_initialized_keeps_disk.
  - intros query k. rewrite search_world. apply ensure_initialized_keeps_disk.
  - intros Hinit. split; intros; [rewrite recommend_world | rewrite search_world];
      by rewrite ensure_initialized_ready.
Qed.

Lemma build_mappings_keeps_disk tx pr : keeps_disk (build_mappings tx pr).
Proof. unfold build_mappings, column_of. disk_frame. Qed.

Lemma fit_factors_keeps_disk L tx pr : keeps_disk (fit_factors L tx pr).
Proof. unfold fit_factors. disk_frame. Qed.

Lemma build_index_keeps_disk L pr : keeps_disk (build_index L pr).
Proof. unfold build_index. disk_frame. Qed.

Lemma publish_keeps_disk pr factors : keeps_disk (publish pr factors).
Proof. unfold publish. disk_frame. Qed.

Lemma build_mappings_initialized tx pr :
  preserves initialized (build_mappings tx pr).
Proof. unfold build_mappings, column_of. frame. Qed.

Lemma fit_factors_initialized L tx pr :
  preserves initialized (fit_factors L tx pr).
Proof. unfold fit_factors. frame. Qed.

Lemma build_index_initialized L pr : preserves initialized (build_index L pr).
Proof. unfold build_index. frame. Qed.

Lemma publish_initialized pr factors :
  preserves initialized (publish pr factors).
Proof. unfold publish. frame. Qed.

Lemma publish_faiss_index pr factors : preserves faiss_index (publish pr factors).
Proof. unfold publish. frame. Qed.

Lemma build_index_ok L pr w :
  (build_index L pr w).2 = Ok tt →
  is_Some (faiss_index (self (build_index L pr w).1)).
Proof.
  rewrite build_index_run. cbv zeta.
  destruct (forallb _ pr); [done |].
  destruct (encode L <$> _) as [|e es]; [done |].
  destruct (forallb _ _); [| done]. by eauto.
Qed.

(** A run that raises stopped in one of the four blocks before
    [persist]: once the index is built, [persist] has what it writes. *)
Lemma train_sync_raises_before_persist L tx pr w e :
  (_train_sync L tx pr w).2 = Raise e →
  ∃ m : M unit, keeps_disk m ∧ preserves initialized m ∧
    (_train_sync L tx pr w).1 = (m w).1.
Proof.
  intros Hraise.
  exists (build_mappings tx pr;;
          let! factors := fit_factors L tx pr in
          build_index L pr;; publish pr factors).
  split; [| split].
  - apply keeps_disk_bind; [apply build_mappings_keeps_disk | intros _].
    apply keeps_disk_bind; [apply fit_factors_keeps_disk | intros factors].
    apply keeps_disk_bind; [apply build_index_keeps_disk | intros _].
    apply publish_keeps_disk.
  - apply preserves_bind; [apply build_mappings_initialized | intros _].
    apply preserves_bind; [apply fit_factors_initialized | intros factors].
    apply preserves_bind; [apply build_index_initialized | intros _].
    apply publish_initialized.
  - revert Hraise. unfold _train_sync, bind.
    destruct (build_mappings tx pr w) as [w1 [[]|e1]]; [| done].
    destruct (fit_factors L tx pr w1) as [w2 [factors|e2]]; [| done].
    pose proof (build_index_ok L pr w2) as Hix.
    destruct (build_index L pr w2) as [w3 [[]|e3]]; [| done].
    specialize (Hix eq_refl). simpl in Hix.
    pose proof (publish_faiss_index pr factors w3) as Hsame.
    destruct (publish pr factors w3) as [w4 [[]|e4]]; [| done].
    simpl in Hsame. rewrite <- Hsame in Hix.
    pose proof (persist_returns factors w4 Hix) as Hok.
    intros Hraise. rewrite Hok in Hraise. discriminate.
Qed.

(** A run of [_train_sync] that raises has written none of the three
    files and has not touched the [initialized] flag: every statement
    that can raise comes before the first file is opened.  The object in
    memory may have changed. *)
Theorem failed_training_writes_nothing L tx pr w e :
  (_train_sync L tx pr w).2 = Raise e →
  disk (_train_sync L tx pr w).1 = disk w ∧
  initialized (self (_train_sync L tx pr w).1) = initialized (self w).
Proof.
  intros Hraise.
  destruct (train_sync_raises_before_persist _ _ _ _ _ Hraise)
    as (m & Hdisk & Hinit & ->).
  split; [apply Hdisk | apply Hinit].
Qed.

Lemma failed_training_writes_nothing_witness :
  let after := _train_sync Sample.libs (transactions Sample.tiny)
                 (products Sample.tiny) Sample.trained in
  disk after.1 = disk Sample.trained ∧
  initialized (self after.1) = initialized (self Sample.trained).
Proof.
  apply (failed_training_writes_nothing _ _ _ _ ValueError).
  vm_compute. reflexivity.
Defined.

(** Training is independent of what the object and the directory held
    before: from any two worlds, [_train_sync] on one snapshot returns or
    raises alike, and when it returns both runs end in the same world.
    In particular a build on an unchanged snapshot reproduces the
    artifact that is already there. *)
Theorem training_forgets_the_past L tx pr w1 w2 :
  (_train_sync L tx pr w1).2 = (_train_sync L tx pr w2).2 ∧
  ((_train_sync L tx pr w1).2 = Ok tt →
   _train_sync L tx pr w1 = _train_sync L tx pr w2).
Proof.
  assert (Hres : ∀ w w', (_train_sync L tx pr w).2 = (_train_sync L tx pr w').2).
  { intros w w'. destruct (decide (tx = [])) as [Htx | Htx].
    { by rewrite !train_sync_no_columns by auto. }
    destruct (decide (pr = [])) as [Hpr | Hpr].
    { by rewrite !train_sync_no_columns by auto. }
    by rewrite !train_sync_result. }
  split; [apply Hres |]. intros Hok1.
  assert (Hok2 : (_train_sync L tx pr w2).2 = Ok tt) by (by rewrite <- (Hres w1)).
  pose proof (train_sync_publishes _ _ _ _ Hok1) as Ha1.
  pose proof (train_sync_publishes _ _ _ _ Hok2) as Ha2.
  destruct (_train_sync L tx pr w1) as [[s1 d1] r1] eqn:H1.
  destruct (_train_sync L tx pr w2) as [[s2 d2] r2] eqn:H2.
  simpl in *. subst r1 r2.
  apply train_sync_persists in H1, H2. simpl in *.
  congruence.
Qed.

Lemma registry_user_map tx pr uid :
  is_Some (user_map (registry tx pr) !! uid) ↔ uid ∈ user_id <$> tx.
Proof.
  destruct (enumerate_bijective (Py.unique (user_id <$> tx)))
    as [H1 _ _ _]; [apply unique_NoDup |].
  rewrite <- unique_elem_of. split.
  - intros [i Hi]. cbn in Hi.
    apply dict_of_lookup in Hi;
      [| unfold Py.enumerate; rewrite swap_enumerate_fst; apply unique_NoDup].
    apply list_elem_of_fmap in Hi as ([j x] & [= -> ->] & Hin).
    apply elem_of_enumerate_from in Hin as [_ Hl].
    by eapply list_elem_of_lookup_2.
  - intros Hin. destruct (H1 _ Hin) as (i & Hi & _). by exists i.
Qed.

Lemma artifact_user_factors L tx pr s :
  artifact L tx pr = Some s →
  ∃ fitted, fit_transform L 50 (snapshot_matrix L tx pr) = Ok fitted ∧
            user_factors s = Some fitted.1.
Proof.
  unfold artifact.
  destruct (fit_transform L 50 _) as [fitted|]; [| done].
  destruct (encode L <$> _); [done |].
  intros [= <-]. by exists fitted.
Qed.

Lemma getitem_nonnegative {A} (a : list A) (i : Z) :
  (0 ≤ i)%Z →
  (i < Z.of_nat (length a))%Z ∧ (∃ x, Py.getitem a i = Ok x) ∨
  (Z.of_nat (length a) ≤ i)%Z ∧ Py.getitem a i = Raise IndexError.
Proof.
  intros Hi. unfold Py.getitem. cbv zeta.
  destruct (Z.ltb_spec i 0); [lia |].
  destruct (Z.ltb_spec i 0); [lia |].
  destruct (a !! Z.to_nat i) as [x|] eqn:Hx.
  - left. apply lookup_lt_Some in Hx. split; [lia | by exists x].
  - right. apply lookup_ge_None in Hx. split; [lia | done].
Qed.

(** A retraining whose decomposition raises, on an object that served a
    successful build.  The run ends with the exception of the
    decomposition and leaves the object initialized, with the mappings
    of the new snapshot, the unfitted model, and the user factors, the
    index and the metadata of the old build; the model directory is
    untouched.  From then on [recommend] raises for every user of the
    new snapshot: IndexError when the user's new index is beyond the
    rows of the old factors, AttributeError otherwise, the model having
    no [components_].  For every other user, those of the old build
    included, it returns the empty list. *)
Theorem failed_retraining_breaks_recommend L tx0 pr0 w0 w tx pr e :
  _train_sync L tx0 pr0 w0 = (w, Ok tt) →
  tx ≠ [] → pr ≠ [] →
  fit_transform L 50 (snapshot_matrix L tx pr) = Raise e →
  let after := (_train_sync L tx pr w).1 in
  (_train_sync L tx pr w).2 = Raise e ∧
  initialized (self after) = true ∧
  mappings (self after) = mappings (registry tx pr) ∧
  svd_model (self after)
    = Some {| n_components := 50; components_ := None |} ∧
  user_factors (self after) = user_factors (self w) ∧
  faiss_index (self after) = faiss_index (self w) ∧
  product_data (self after) = product_data (self w) ∧
  disk after = disk w ∧
  ∃ old_factors,
    user_factors (self w) = Some old_factors ∧
    (factor_shapes L →
     length old_factors = length (Py.unique (user_id <$> tx0))) ∧
    ∀ uid k,
      (uid ∈ user_id <$> tx →
       ∃ u, user_map (self after) !! uid = Some u ∧ (0 ≤ u)%Z ∧
            (recommend L uid k after).2 =
            if (u <? Z.of_nat (length old_factors))%Z
            then Raise AttributeError else Raise IndexError) ∧
      (uid ∈ user_id <$> tx →
       (recommend L uid k after).2 = Raise IndexError ∨
       (recommend L uid k after).2 = Raise AttributeError) ∧
      (uid ∉ user_id <$> tx → (recommend L uid k after).2 = Ok []).
Proof.
  intros Hrun Htx Hpr Hfit after.
  pose proof (train_sync_artifact _ _ _ _ _ Hrun) as Hart.
  assert (Hinit : initialized (self w) = true)
    by (by eapply artifact_initialized).
  destruct (artifact_user_factors _ _ _ _ Hart) as (fitted0 & Hfit0 & Hfac).
  unfold after. rewrite (train_sync_decomposition_raises _ _ _ _ _ Htx Hpr Hfit).
  rewrite build_mappings_run by done. cbn [fst snd self disk].
  do 8 (split; [done |]).
  exists fitted0.1. split; [exact Hfac |]. split.
  { intros Hshape. by destruct (Hshape _ _ _ Hfit0) as [-> _]. }
  intros uid k.
  rewrite recommend_unfold, ensure_initialized_ready by exact Hinit.
  cbv zeta.
  cbn [fst self initialized negb user_map user_factors svd_model
       set_svd_model set_product_map set_reverse_product_map
       set_reverse_user_map set_user_map].
  rewrite Hinit, Hfac. cbn [negb].
  pose proof (registry_user_map tx pr uid) as Hreg.
  assert (Hknown : uid ∈ user_id <$> tx →
    ∃ u, user_map (registry tx pr) !! uid = Some u ∧ (0 ≤ u)%Z ∧
         match user_map (registry tx pr) !! uid with
         | Some user_idx =>
             match Py.getitem fitted0.1 user_idx with
             | Ok _ => (w, Raise AttributeError).2
             | Raise e' => (w, Raise e').2
             end
         | None => Ok []
         end =
         if (u <? Z.of_nat (length fitted0.1))%Z
         then Raise AttributeError else Raise IndexError
           (A := list Recommendation)).
  { intros Hin. apply Hreg in Hin as [u Hu]. exists u. rewrite Hu.
    pose proof (index_of_in_range _ _ _ Hu) as Hrange.
    split; [done |]. split; [lia |].
    destruct (getitem_nonnegative fitted0.1 u) as [[Hlt [v ->]] | [Hge ->]];
      [lia | |].
    - by replace (u <? _)%Z with true by (symmetry; by apply Z.ltb_lt).
    - by replace (u <? _)%Z with false by (symmetry; by apply Z.ltb_ge). }
  split; [| split].
  - intros Hin. destruct (Hknown Hin) as (u & Hu & Hpos & Hres).
    exists u. split; [exact Hu |]. split; [done |].
    rewrite <- Hres. rewrite Hu. cbn [mbind option_bind components_].
    by destruct (Py.getitem fitted0.1 u).
  - intros Hin. destruct (Hknown Hin) as (u & Hu & Hpos & Hres).
    rewrite Hu in *. cbn [mbind option_bind components_].
    destruct (Py.getitem fitted0.1 u); cbn [snd] in *;
      destruct (u <? _)%Z; auto.
  - intros Hout.
    destruct (user_map (registry tx pr) !! uid) eqn:Hu; [| done].
    destruct Hout. apply Hreg. by eauto.
Qed.

Lemma failed_retraining_breaks_recommend_witness :
  let tx := [Sample.purchase "U0" "P00" 1; Sample.purchase "U1" "P00" 2] in
  let pr := Sample.catalogue 1 in
  let w := Sample.trained in
  let after := (_train_sync Sample.libs tx pr w).1 in
  (_train_sync Sample.libs tx pr w).2 = Raise ValueError ∧
  initialized (self after) = true ∧
  mappings (self after) = mappings (registry tx pr) ∧
  svd_model (self after)
    = Some {| n_components := 50; components_ := None |} ∧
  user_factors (self after) = user_factors (self w) ∧
  faiss_index (self after) = faiss_index (self w) ∧
  product_data (self after) = product_data (self w) ∧
  disk after = disk w ∧
  ∃ old_factors,
    user_factors (self w) = Some old_factors ∧
    (factor_shapes Sample.libs →
     length old_factors
     = length (Py.unique (user_id <$> transactions Sample.db1))) ∧
    ∀ uid k,
      (uid ∈ user_id <$> tx →
       ∃ u, user_map (self after) !! uid = Some u ∧ (0 ≤ u)%Z ∧
            (recommend Sample.libs uid k after).2 =
            if (u <? Z.of_nat (length old_factors))%Z
            then Raise AttributeError else Raise IndexError) ∧
      (uid ∈ user_id <$> tx →
       (recommend Sample.libs uid k after).2 = Raise IndexError ∨
       (recommend Sample.libs uid k after).2 = Raise AttributeError) ∧
      (uid ∉ user_id <$> tx →
       (recommend Sample.libs uid k after).2 = Ok []).
Proof.
  apply (failed_retraining_breaks_recommend Sample.libs
           (transactions Sample.db1) (products Sample.db1) Sample.new_world
           Sample.trained
           [Sample.purchase "U0" "P00" 1; Sample.purchase "U1" "P00" 2]
           (Sample.catalogue 1) ValueError).
  - exact sample_trained.
  - discriminate.
  - discriminate.
  - vm_compute. reflexivity.
Defined.

(** ** Results and the catalogue *)

Lemma artifact_product_data L tx pr s :
  artifact L tx pr = Some s →
  product_data s =
  Py.dict_of ((fun p => (_id p, default EmptyString (description p))) <$> pr).
Proof.
  unfold artifact. repeat case_match; try done. by intros [= <-].
Qed.

Lemma catalogue_description L tx pr s i code :
  NoDup (_id <$> pr) →
  artifact L tx pr = Some s →
  product_map s !! i = Some code →
  ∃ p, p ∈ pr ∧ _id p = code ∧
       product_data s !! code = Some (default EmptyString (description p)).
Proof.
  intros Hnd Hart Hcode.
  rewrite (artifact_product_map _ _ _ _ Hart) in Hcode.
  apply registry_product_map in Hcode as [_ Hl].
  apply list_lookup_fmap_Some in Hl as (p & -> & Hp).
  exists p. split; [by eapply list_elem_of_lookup_2 |]. split; [done |].
  rewrite (artifact_product_data _ _ _ _ Hart).
  apply dict_of_lookup.
  - by rewrite <- list_fmap_compose.
  - apply list_elem_of_fmap. exists p. split; [done |].
    by eapply list_elem_of_lookup_2.
Qed.

(** After a successful build every result carries the description of
    the product whose stock code it carries: each recommendation has a
    non-empty code of the catalogue and that product's description as
    its name (never None), each search hit has that product's
    description (the ['Unknown'] default is never used). *)
Theorem results_carry_catalogue_descriptions L tx pr w0 w :
  _train_sync L tx pr w0 = (w, Ok tt) →
  (∀ uid k recs, (recommend L uid k w).2 = Ok recs →
     Forall (fun r => ∃ p, p ∈ pr ∧ _id p = rec_stock_code r ∧
                       rec_stock_code r ≠ EmptyString ∧
                       rec_name r = Some (default EmptyString (description p)))
            recs) ∧
  (∀ query k hits, (search L query k w).2 = Ok hits →
     Forall (fun h => ∃ p, p ∈ pr ∧ _id p = hit_stock_code h ∧
                       hit_description h = default EmptyString (description p))
            hits).
Proof.
  intros Hrun.
  pose proof (train_sync_artifact _ _ _ _ _ Hrun) as Hart.
  assert (Hinit : initialized (self w) = true)
    by (by eapply artifact_initialized).
  assert (Hnd : NoDup (_id <$> pr)).
  { eapply (train_sync_ok_well_formed L tx pr w0). by rewrite Hrun. }
  split.
  - intros uid k recs.
    rewrite recommend_unfold, ensure_initialized_ready by exact Hinit.
    cbv zeta. cbn [fst]. rewrite Hinit. cbn [negb].
    repeat case_match; cbn [snd]; intros [= <-]; try by constructor.
    apply Forall_forall. intros r (idx & _ & Hrow)%list_elem_of_omap.
    unfold recommend_row in Hrow.
    destruct (product_map (self w) !! idx) as [code|] eqn:Hcode; [| done].
    destruct (Py.truthy code) eqn:Htruthy; [| done].
    injection Hrow as <-. cbn.
    destruct (catalogue_description _ _ _ _ _ _ Hnd Hart Hcode)
      as (p & Hin & Hid & Hdata).
    exists p. repeat split; try done.
    intros ->. discriminate Htruthy.
  - intros query k hits.
    rewrite search_unfold, ensure_initialized_ready by exact Hinit.
    cbv zeta. cbn [fst]. rewrite Hinit. cbn [negb].
    repeat case_match; cbn [snd]; intros [= <-]; try by constructor.
    apply Forall_forall. intros h (row & _ & Hrow)%list_elem_of_omap.
    unfold search_row in Hrow.
    destruct (product_map (self w) !! row.1) as [code|] eqn:Hcode; [| done].
    injection Hrow as <-. cbn.
    destruct (catalogue_description _ _ _ _ _ _ Hnd Hart Hcode)
      as (p & Hin & Hid & Hdata).
    exists p. rewrite Hdata. done.
Qed.

Lemma results_carry_catalogue_descriptions_witness :
  (∀ uid k recs, (recommend Sample.libs uid k Sample.trained).2 = Ok recs →
     Forall (fun r => ∃ p, p ∈ products Sample.db1 ∧ _id p = rec_stock_code r ∧
                       rec_stock_code r ≠ EmptyString ∧
                       rec_name r = Some (default EmptyString (description p)))
            recs) ∧
  (∀ query k hits, (search Sample.libs query k Sample.trained).2 = Ok hits →
     Forall (fun h => ∃ p, p ∈ products Sample.db1 ∧ _id p = hit_stock_code h ∧
                       hit_description h = default EmptyString (description p))
            hits).
Proof.
  exact (results_carry_catalogue_descriptions _ _ _ _ _ sample_trained).
Defined.

(** What [recommend] computes for a user of a successful build. *)
Lemma recommend_trained L tx pr w0 w uid u :
  factor_shapes L →
  _train_sync L tx pr w0 = (w, Ok tt) →
  user_map (self w) !! uid = Some u →
  ∃ fitted v scores,
    fit_transform L 50 (snapshot_matrix L tx pr) = Ok fitted ∧
    fitted.1 !! Z.to_nat u = Some v ∧
    Np.dot v fitted.2 = Ok scores ∧
    ∀ k, recommend L uid k w =
         (w, Ok (omap (recommend_row (self w) scores)
                      (Py.slice_to (reverse (argsort L scores)) k))).
Proof.
  intros Hshape Hrun Hu.
  apply train_sync_artifact in Hrun. revert Hrun Hu. unfold artifact.
  destruct w as [s dk]. cbn [self].
  destruct (fit_transform L 50 _) as [fitted|] eqn:Hfit; [| done].
  destruct (encode L <$> _) as [|e es]; [done |].
  intros [= <-]. set (s := {| svd_model := _ |}). intros Hu.
  change (user_map (registry tx pr) !! uid = Some u) in Hu.
  destruct (Hshape _ _ _ Hfit) as [Hrows Hcols]. simpl in Hrows.
  pose proof (index_of_in_range _ _ _ Hu) as Hrange.
  rewrite <- Hrows in Hrange.
  destruct (lookup_lt_is_Some_2 fitted.1 (Z.to_nat u)) as [v Hv]; [lia |].
  assert (Hlen : length v = length fitted.2).
  { rewrite Forall_forall in Hcols. apply Hcols.
    by eapply list_elem_of_lookup_2. }
  destruct (Np.dot v fitted.2) as [scores|] eqn:Hdot.
  2: { unfold Np.dot in Hdot. by rewrite decide_True in Hdot. }
  exists fitted, v, scores. split; [done |]. split; [done |]. split; [done |].
  intros k.
  rewrite recommend_unfold, ensure_initialized_ready by done.
  cbv zeta. cbn [fst self initialized negb s user_factors svd_model].
  change (user_map _ !! uid) with (user_map (registry tx pr) !! uid).
  rewrite Hu.
  rewrite (getitem_in_range _ _ v) by (done || lia).
  cbn [mbind option_bind components_]. by rewrite Hdot.
Qed.

Lemma recommend_rows_of_all_positions s scores (ids : list string) a :
  (∀ i : nat, product_map s !! Z.of_nat (a + i) = ids !! i) →
  rec_stock_code <$>
    omap (recommend_row s scores) (Z.of_nat <$> seq a (length ids))
  = filter (fun c => Py.truthy c = true) ids.
Proof.
  revert a. induction ids as [|c ids IH]; intros a Hmap; [done |].
  cbn [length seq]. rewrite fmap_cons, omap_cons. unfold recommend_row at 1.
  pose proof (Hmap 0) as H0. rewrite Nat.add_0_r in H0. rewrite H0.
  simpl. rewrite filter_cons.
  assert (Htail : rec_stock_code <$>
    omap (recommend_row s scores) (Z.of_nat <$> seq (S a) (length ids))
    = filter (fun c => Py.truthy c = true) ids).
  { apply IH. intros i. specialize (Hmap (S i)). simpl in Hmap.
    rewrite <- Hmap. do 2 f_equal. lia. }
  destruct (Py.truthy c) eqn:Hc.
  - rewrite decide_True by done. rewrite fmap_cons. by rewrite Htail.
  - rewrite decide_False by (by intros [=]). exact Htail.
Qed.

(** [recommend] does not leave out what the user already bought.  After
    a successful build, with routines that meet the documented shapes
    and the contract of [np.argsort], a user of the snapshot who asks
    for at least as many items as the catalogue has gets every product
    with a non-empty stock code exactly once; the products of the user's
    own transactions are among them. *)
Theorem recommend_lists_whole_catalogue L tx pr w0 w uid k :
  Np.argsort_contract (argsort L) → factor_shapes L → component_shapes L →
  _train_sync L tx pr w0 = (w, Ok tt) →
  uid ∈ user_id <$> tx →
  (Z.of_nat (length pr) ≤ k)%Z →
  ∃ results,
    recommend L uid k w = (w, Ok results) ∧
    rec_stock_code <$> results
      ≡ₚ filter (fun c => Py.truthy c = true) (_id <$> pr) ∧
    ∀ t, t ∈ tx → user_id t = uid → stock_code t ∈ _id <$> pr →
         stock_code t ≠ EmptyString →
         stock_code t ∈ rec_stock_code <$> results.
Proof.
  intros Hsort Hshape Hcomp Hrun Hin Hk.
  pose proof (train_sync_artifact _ _ _ _ _ Hrun) as Hart.
  assert (Hmap : product_map (self w) = product_map (registry tx pr))
    by (by eapply artifact_product_map).
  assert (Hu : is_Some (user_map (self w) !! uid)).
  { replace (user_map (self w)) with (user_map (registry tx pr));
      [by apply registry_user_map |].
    revert Hart. unfold artifact. repeat case_match; try done.
    by intros [= <-]. }
  destruct Hu as [u Hu].
  destruct (recommend_trained _ _ _ _ _ _ _ Hshape Hrun Hu)
    as (fitted & v & scores & Hfit & Hv & Hdot & Hrec).
  assert (Hlen : length scores = length pr).
  { specialize (Hcomp 50 _ _ ltac:(lia) Hfit). simpl in Hcomp.
    revert Hdot. unfold Np.dot. case_decide; [| done]. intros [= <-].
    by rewrite length_fmap, length_seq, Hcomp, length_fmap. }
  destruct (Hsort scores) as [Hperm _].
  eexists. split; [apply Hrec |].
  assert (Hall : rec_stock_code <$>
            omap (recommend_row (self w) scores)
                 (Py.slice_to (reverse (argsort L scores)) k)
          ≡ₚ filter (fun c => Py.truthy c = true) (_id <$> pr)).
  { rewrite slice_to_take by lia.
    rewrite take_ge
      by (rewrite length_reverse, Hperm, length_fmap, length_seq; lia).
    rewrite reverse_Permutation, Hperm, Hlen.
    rewrite <- (length_fmap _id pr).
    rewrite (recommend_rows_of_all_positions _ _ (_id <$> pr) 0); [done |].
    intros i. simpl. rewrite Hmap.
    destruct ((_id <$> pr) !! i) as [c|] eqn:Hc.
    - apply registry_product_map. rewrite Nat2Z.id. split; [lia | done].
    - destruct (product_map (registry tx pr) !! Z.of_nat i) eqn:Hp; [| done].
      apply registry_product_map in Hp as [_ Hp].
      rewrite Nat2Z.id in Hp. congruence. }
  split; [exact Hall |].
  intros t _ _ Hcode Hne. rewrite Hall.
  apply list_elem_of_filter. split; [| done].
  unfold Py.truthy. destruct (String.eqb_spec (stock_code t) EmptyString); done.
Qed.

Lemma sample_component_shapes : component_shapes Sample.libs.
Proof.
  intros n X fitted Hn. simpl. unfold Sample.fit_transform.
  case_decide; [| done]. intros [= <-].
  destruct n as [|n]; [lia |].
  cbn. unfold Sample.unit_row. by rewrite length_fmap, length_seq.
Qed.

Lemma recommend_lists_whole_catalogue_witness :
  ∃ results,
    recommend Sample.libs "U1" 50 Sample.trained = (Sample.trained, Ok results) ∧
    rec_stock_code <$> results
      ≡ₚ filter (fun c => Py.truthy c = true) (_id <$> products Sample.db1) ∧
    ∀ t, t ∈ transactions Sample.db1 → user_id t = "U1" →
         stock_code t ∈ _id <$> products Sample.db1 →
         stock_code t ≠ EmptyString →
         stock_code t ∈ rec_stock_code <$> results.
Proof.
  apply (recommend_lists_whole_catalogue Sample.libs
           (transactions Sample.db1) (products Sample.db1) Sample.new_world).
  - exact stable_argsort_contract.
  - exact sample_factor_shapes.
  - exact sample_component_shapes.
  - exact sample_trained.
  - vm_compute. left.
  - vm_compute. discriminate.
Defined.

(** ** Builds and the collections *)

Lemma run_ignores_database L srv1 srv2 trace :
  world srv1 = world srv2 → tasks srv1 = tasks srv2 →
  Forall (fun t => t ≠ Fetch) (tasks srv1) →
  Forall (fun e => e ≠ PostTrain) trace →
  world (run L srv1 trace)
    = world (run L srv2 (filter (fun e => is_ingest e = false) trace)) ∧
  tasks (run L srv1 trace)
    = tasks (run L srv2 (filter (fun e => is_ingest e = false) trace)).
Proof.
  intros Hw Ht Hnf Htrace. revert srv1 srv2 Hw Ht Hnf.
  induction Htrace as [|e trace He _ IH]; intros srv1 srv2 Hw Ht Hnf; [done |].
  destruct e as [| i | db]; [done | |].
  - rewrite filter_cons_True by done. simpl. apply IH.
    + unfold run_task. rewrite <- Ht.
      destruct (tasks srv1 !! i) as [t|] eqn:Hi; [| done]. simpl.
      rewrite <- Hw. f_equal. apply task_step_database.
      by eapply (Forall_lookup_1 _ _ _ _ Hnf).
    + unfold run_task. rewrite <- Ht.
      destruct (tasks srv1 !! i) as [t|] eqn:Hi; [| done]. simpl.
      rewrite <- Hw. do 2 f_equal. apply task_step_database.
      by eapply (Forall_lookup_1 _ _ _ _ Hnf).
    + unfold run_task.
      destruct (tasks srv1 !! i) as [t|] eqn:Hi; [| done]. simpl.
      apply Forall_insert; [done |]. apply task_step_not_fetch.
      by eapply (Forall_lookup_1 _ _ _ _ Hnf).
  - rewrite filter_cons_False by (simpl; congruence). simpl. by apply IH.
Qed.

(** A build works on the frames it fetched.  Once every started task
    has read the collections, rewriting the collections (as the
    ingestion script does) while the tasks run changes neither the world
    they leave nor their outcomes, as long as no new build is
    requested. *)
Theorem running_builds_ignore_ingests L srv trace :
  Forall (fun t => t ≠ Fetch) (tasks srv) →
  Forall (fun e => e ≠ PostTrain) trace →
  let quiet := filter (fun e => is_ingest e = false) trace in
  world (run L srv trace) = world (run L srv quiet) ∧
  tasks (run L srv trace) = tasks (run L srv quiet).
Proof. intros Hnf Htrace. by apply run_ignores_database. Qed.

Lemma running_builds_ignore_ingests_witness :
  let trace := [RunTask 0; Ingest Sample.db2; RunTask 0; RunTask 0; RunTask 0] in
  world (run Sample.libs Sample.busy trace)
    = world (run Sample.libs Sample.busy (replicate 4 (RunTask 0))) ∧
  tasks (run Sample.libs Sample.busy trace)
    = tasks (run Sample.libs Sample.busy (replicate 4 (RunTask 0))).
Proof.
  apply (running_builds_ignore_ingests Sample.libs Sample.busy
           [RunTask 0; Ingest Sample.db2; RunTask 0; RunTask 0; RunTask 0]).
  - vm_compute. repeat constructor; discriminate.
  - repeat constructor; discriminate.
Defined.

(** ** The chunked insertion of the ingestion script *)

Lemma slice_take_drop {A} (l : list A) (pos size : Z) :
  (0 ≤ pos)%Z → (0 ≤ size)%Z →
  IngestData.slice l pos (pos + size)
  = take (Z.to_nat size) (drop (Z.to_nat pos) l).
Proof.
  intros Hpos Hsize. unfold IngestData.slice, IngestData.slice_bound. cbv zeta.
  destruct (Z.ltb_spec pos 0); [lia |].
  destruct (Z.ltb_spec (pos + size) 0); [lia |].
  destruct (decide (Z.of_nat (length l) ≤ pos)%Z) as [Hout | Hin].
  - rewrite !drop_ge by lia. by rewrite !take_nil.
  - rewrite (Z.min_l pos) by lia.
    destruct (decide (pos + size ≤ Z.of_nat (length l))%Z).
    + rewrite (Z.min_l (pos + size)) by lia. f_equal. lia.
    + rewrite (Z.min_r (pos + size)) by lia.
      rewrite !take_ge; [done | |]; rewrite length_drop; lia.
Qed.

Lemma range_from_nonempty fuel start stop step :
  IngestData.range_from fuel start stop step ≠ [] → (0 < step)%Z →
  (start < stop)%Z.
Proof.
  destruct fuel as [|fuel]; [done |]. simpl. intros Hne Hstep.
  destruct (Z.ltb_spec 0 step); [| lia].
  destruct (Z.ltb_spec start stop); [lia | done].
Qed.

Lemma chunks_from {A} (l : list A) (size : Z) fuel (start : Z) :
  (0 < size)%Z → (0 ≤ start)%Z →
  (Z.of_nat (length l) ≤ start + Z.of_nat fuel)%Z →
  let chunks :=
    (fun pos => IngestData.slice l pos (pos + size))
      <$> IngestData.range_from fuel start (Z.of_nat (length l)) size in
  concat chunks = drop (Z.to_nat start) l ∧
  Forall (fun c => (0 < Z.of_nat (length c) ≤ size)%Z) chunks ∧
  (∀ i c, chunks !! i = Some c → S i < length chunks →
          Z.of_nat (length c) = size).
Proof.
  intros Hsize. revert start.
  induction fuel as [|fuel IH]; intros start Hstart Hfuel chunks.
  { subst chunks. simpl. rewrite drop_ge by lia. by repeat split. }
  subst chunks. simpl.
  replace (0 <? size)%Z with true by (symmetry; by apply Z.ltb_lt).
  destruct (Z.ltb_spec start (Z.of_nat (length l))) as [Hlt | Hge].
  2: { simpl. rewrite drop_ge by lia. by repeat split. }
  destruct (IH (start + size)%Z) as (Hcat & Hall & Hfull); [lia | lia |].
  rewrite fmap_cons. rewrite slice_take_drop by lia.
  split; [| split].
  - simpl. rewrite Hcat.
    replace (Z.to_nat (start + size)) with (Z.to_nat start + Z.to_nat size)
      by lia.
    rewrite <- drop_drop. apply take_drop.
  - constructor; [| exact Hall].
    rewrite length_take, length_drop. lia.
  - intros [|i] c Hc Hlen.
    + injection Hc as <-. rewrite length_take, length_drop.
      assert (start + size < Z.of_nat (length l))%Z; [| lia].
      apply (range_from_nonempty fuel _ _ size); [| done].
      intros Hnil. rewrite Hnil in Hlen. simpl in Hlen. lia.
    + simpl in Hc, Hlen. apply (Hfull i c Hc). lia.
Qed.

Lemma chunker_run {A} (seq : list A) (size : Z) :
  (0 < size)%Z →
  IngestData.chunker seq size =
  inr ((fun pos => IngestData.slice seq pos (pos + size))
         <$> IngestData.range_from (length seq) 0 (Z.of_nat (length seq)) size).
Proof.
  intros Hsize. unfold IngestData.chunker, IngestData.range.
  destruct (Z.eqb_spec size 0); [lia |].
  by rewrite Z.sub_0_r, Z.abs_eq, Nat2Z.id by lia.
Qed.

(** [chunker] with a positive size cuts a list into consecutive chunks:
    put back together they are the list, none is empty, none is longer
    than the size, and all but the last have exactly the size. *)
Theorem chunker_partitions {A} (seq : list A) (size : Z) :
  (0 < size)%Z →
  ∃ chunks,
    IngestData.chunker seq size = inr chunks ∧
    concat chunks = seq ∧
    Forall (fun c => (0 < Z.of_nat (length c) ≤ size)%Z) chunks ∧
    (∀ i c, chunks !! i = Some c → S i < length chunks →
            Z.of_nat (length c) = size).
Proof.
  intros Hsize. rewrite chunker_run by done.
  eexists. split; [reflexivity |].
  by apply (chunks_from seq size _ 0%Z); [| | lia].
Qed.

Lemma chunker_partitions_witness :
  ∃ chunks,
    IngestData.chunker [1; 2; 3; 4; 5; 6; 7]%Z 3 = inr chunks ∧
    concat chunks = [1; 2; 3; 4; 5; 6; 7]%Z ∧
    Forall (fun c => (0 < Z.of_nat (length c) ≤ 3)%Z) chunks ∧
    (∀ i c, chunks !! i = Some c → S i < length chunks →
            Z.of_nat (length c) = 3%Z).
Proof. apply (chunker_partitions [1; 2; 3; 4; 5; 6; 7]%Z 3). lia. Defined.

(** [chunker] without a positive size: size 0 raises when [chunker] is
    called (the step of a range must not be zero), a negative size gives
    no chunk at all, whatever the list holds. *)
Theorem chunker_without_positive_size {A} (seq : list A) (size : Z) :
  (size ≤ 0)%Z →
  IngestData.chunker seq size =
  if (size =? 0)%Z then inl IngestData.RangeStepZero else inr [].
Proof.
  intros Hsize. unfold IngestData.chunker, IngestData.range.
  destruct (size =? 0)%Z eqn:H0; [done |].
  rewrite Z.sub_0_r, Z.abs_eq by lia.
  destruct (Z.to_nat (Z.of_nat (length seq))) as [|fuel]; [done |].
  simpl. destruct (Z.ltb_spec 0 size); [lia |].
  destruct (Z.ltb_spec (Z.of_nat (length seq)) 0); [lia | done].
Qed.

Lemma chunker_without_positive_size_witness :
  IngestData.chunker [1; 2; 3]%Z (-2) = inr [].
Proof. apply (chunker_without_positive_size [1; 2; 3]%Z (-2)). lia. Defined.

Lemma insert_chunks_all {A} (chunks : list (list A)) collection total :
  Forall (fun c => c ≠ []) chunks →
  IngestData.insert_chunks chunks collection total =
  inr (collection ++ concat chunks,
       (total + Z.of_nat (length (concat chunks)))%Z).
Proof.
  revert collection total.
  induction chunks as [|c chunks IH]; intros collection total Hne.
  { simpl. by rewrite app_nil_r, Z.add_0_r. }
  inversion Hne as [|? ? Hc Hrest]; subst.
  simpl. destruct c as [|x c]; [done |]. simpl.
  rewrite IH by done. rewrite <- app_assoc. simpl.
  rewrite length_app. do 2 f_equal. lia.
Qed.

(** The transaction phase of the ingestion neither fails nor depends on
    what the collection held: for every list of records, none included,
    it leaves exactly these records in the collection, in their order,
    and counts as many in [total_inserted].  [insert_many] is never
    handed an empty list, and a second run leaves what the first left. *)
Theorem ingest_transactions_complete {A} (transaction_records : list A)
    (transactions_collection : list A) :
  IngestData.ingest_transactions transaction_records transactions_collection =
  inr (transaction_records, Z.of_nat (length transaction_records)).
Proof.
  unfold IngestData.ingest_transactions, IngestData.delete_many.
  rewrite chunker_run by done.
  destruct (chunks_from transaction_records IngestData.chunk_size
              (length transaction_records) 0%Z)
    as (Hcat & Hall & _); [done | done | lia |].
  rewrite insert_chunks_all.
  - by rewrite Hcat.
  - eapply Forall_impl; [exact Hall |]. intros c [Hpos _] ->. simpl in Hpos. lia.
Qed.

(** ** Settings *)

Lemma lstrip_all_in chars a s :
  all_in chars a → Settings.lstrip chars (a +:+ s) = Settings.lstrip chars s.
Proof.
  induction a as [|c a IH]; [done |]. intros [Hc Ha].
  change (String c a +:+ s) with (String c (a +:+ s)). simpl.
  rewrite bool_decide_eq_true_2 by done. by apply IH.
Qed.

Lemma lstrip_bare chars s :
  (∀ c, first_char s = Some c → c ∉ chars) → Settings.lstrip chars s = s.
Proof.
  destruct s as [|c s]; [done |]. intros Hc. simpl.
  rewrite bool_decide_eq_false_2; [done |]. by apply Hc.
Qed.

Lemma lstrip_all chars b : all_in chars b → Settings.lstrip chars b = EmptyString.
Proof.
  induction b as [|c b IH]; [done |]. intros [Hc Hb]. simpl.
  rewrite bool_decide_eq_true_2 by done. by apply IH.
Qed.

Lemma rstrip_all_in chars b : all_in chars b → Settings.rstrip chars b = EmptyString.
Proof.
  induction b as [|c b IH]; [done |]. intros [Hc Hb]. simpl.
  rewrite IH by done. by rewrite bool_decide_eq_true_2.
Qed.

Lemma rstrip_bare chars v b :
  (∀ c, last_char v = Some c → c ∉ chars) → all_in chars b →
  Settings.rstrip chars (v +:+ b) = v.
Proof.
  intros Hlast Hb. induction v as [|c v IH]; [by apply rstrip_all_in |].
  change (String c v +:+ b) with (String c (v +:+ b)).
  simpl. simpl in Hlast.
  destruct v as [|c' v].
  - change (EmptyString +:+ b) with b. rewrite rstrip_all_in by done.
    rewrite bool_decide_eq_false_2; [done |]. by apply Hlast.
  - rewrite IH.
    + done.
    + intros c0 Hc0. apply Hlast. simpl in *.
      by destruct (last_char v); simplify_eq.
Qed.

Lemma lstrip_first chars s c :
  first_char (Settings.lstrip chars s) = Some c → c ∉ chars.
Proof.
  induction s as [|c' s IH]; [done |]. simpl.
  case_bool_decide as Hc'; [done |]. simpl. by intros [= <-].
Qed.

Lemma rstrip_first chars s c :
  first_char (Settings.rstrip chars s) = Some c → first_char s = Some c.
Proof.
  destruct s as [|c' s]; [done |]. simpl.
  destruct (Settings.rstrip chars s); [| done].
  by case_bool_decide.
Qed.

Lemma rstrip_last chars s c :
  last_char (Settings.rstrip chars s) = Some c → c ∉ chars.
Proof.
  revert c. induction s as [|c' s IH]; [done |]. intros c. simpl.
  destruct (Settings.rstrip chars s) as [|c'' r] eqn:Hr.
  - case_bool_decide as Hc'; [done |]. simpl. by intros [= <-].
  - intros Hlast. apply IH. simpl in *.
    by destruct (last_char r).
Qed.

Lemma rstrip_substring chars s :
  ∃ b, s = Settings.rstrip chars s +:+ b ∧ all_in chars b.
Proof.
  induction s as [|c s (b & Hs & Hb)]; [by exists EmptyString |].
  simpl. destruct (Settings.rstrip chars s) as [|c' r] eqn:Hr.
  - case_bool_decide as Hc.
    + exists (String c s). split; [done |].
      change (s = b) in Hs. by subst b.
    + exists b. split; [| done]. change (s = b) in Hs. by subst b.
  - exists b. split; [| done].
    change (String c s = String c (String c' r +:+ b)). by f_equal.
Qed.

Lemma lstrip_substring chars s :
  ∃ a, s = a +:+ Settings.lstrip chars s ∧ all_in chars a.
Proof.
  induction s as [|c s (a & Hs & Ha)]; [by exists EmptyString |].
  simpl. case_bool_decide as Hc.
  - exists (String c a). split; [| done].
    change (String c s = String c (a +:+ Settings.lstrip chars s)).
    by f_equal.
  - by exists EmptyString.
Qed.

Lemma strip_bare chars s : bare chars (Settings.strip chars s).
Proof.
  split; intros c Hc.
  - apply rstrip_first in Hc. by eapply lstrip_first.
  - by eapply rstrip_last.
Qed.

Lemma append_empty_r v : v = v +:+ EmptyString.
Proof.
  induction v as [|c v IH]; [done |].
  change (String c v = String c (v +:+ EmptyString)). by f_equal.
Qed.

Lemma strip_fixed chars v : bare chars v → Settings.strip chars v = v.
Proof.
  intros [Hfirst Hlast]. unfold Settings.strip.
  rewrite lstrip_bare by done.
  rewrite (append_empty_r v) at 1. by apply rstrip_bare.
Qed.

Lemma not_a_quote c :
  c ≠ "034"%char → c ≠ "'"%char → c ∉ Settings.quotes.
Proof.
  intros H1 H2 [? | [? | []%elem_of_nil]%elem_of_cons]%elem_of_cons; done.
Qed.

Lemma strip_unwraps chars a v b :
  all_in chars a → all_in chars b → bare chars v →
  Settings.strip chars (a +:+ v +:+ b) = v.
Proof.
  intros Ha Hb [Hfirst Hlast]. unfold Settings.strip.
  rewrite lstrip_all_in by done.
  destruct v as [|c v].
  - change (EmptyString +:+ b) with b. by rewrite lstrip_all.
  - rewrite lstrip_bare.
    + by apply rstrip_bare.
    + intros c0. simpl. intros [= <-]. by apply Hfirst.
Qed.

(** Sanitising recovers a quoted setting: whatever run of quotes stands
    in front of and behind a value that neither begins nor ends with a
    quote, the modules work with that value; quotes inside the value
    stay. *)
Theorem sanitize_unwraps a v b :
  all_in Settings.quotes a → all_in Settings.quotes b →
  bare Settings.quotes v →
  Settings.sanitize (a +:+ v +:+ b) = v.
Proof. apply strip_unwraps. Qed.

Lemma sanitize_unwraps_witness :
  Settings.sanitize
    (String "034"%char "'" +:+ "mongodb://db:27017/?appName='shop'&w=1" +:+
     String "'"%char (String "034"%char EmptyString))
  = "mongodb://db:27017/?appName='shop'&w=1".
Proof.
  apply (sanitize_unwraps (String "034"%char "'")
           "mongodb://db:27017/?appName='shop'&w=1"
           (String "'"%char (String "034"%char EmptyString))).
  - simpl. repeat split; unfold Settings.quotes; repeat constructor.
  - simpl. repeat split; unfold Settings.quotes; repeat constructor.
  - split; intros c Hc; vm_compute in Hc; injection Hc as <-;
      by apply not_a_quote.
Defined.

(** What sanitising does to any setting: the result neither begins nor
    ends with a quote, and the setting is the result with runs of quotes
    in front and behind.  Nothing else is removed. *)
Theorem sanitize_strips_ends (setting : string) :
  bare Settings.quotes (Settings.sanitize setting) ∧
  ∃ a b, setting = a +:+ Settings.sanitize setting +:+ b ∧
         all_in Settings.quotes a ∧ all_in Settings.quotes b.
Proof.
  split; [apply strip_bare |].
  destruct (lstrip_substring Settings.quotes setting) as (a & Hs & Ha).
  destruct (rstrip_substring Settings.quotes
              (Settings.lstrip Settings.quotes setting)) as (b & Hl & Hb).
  exists a, b. split; [| done]. unfold Settings.sanitize, Settings.strip.
  by rewrite <- Hl.
Qed.

Lemma last_char_app s t :
  last_char (s +:+ t) =
  match last_char t with Some c => Some c | None => last_char s end.
Proof.
  induction s as [|c s IH];
    [change (EmptyString +:+ t) with t; by destruct (last_char t) |].
  change (last_char (String c s +:+ t)) with
    (match last_char (s +:+ t) with None => Some c | Some c' => Some c' end).
  rewrite IH. simpl. by destruct (last_char t), (last_char s).
Qed.

Lemma prefix_append p s : String.prefix p (p +:+ s) = true.
Proof.
  induction p as [|c p IH]; [by destruct s |].
  change (String c p +:+ s) with (String c (p +:+ s)). simpl.
  by destruct (ascii_dec c c).
Qed.

(** The URL [connect_to_redis] hands to the client always begins with
    [redis://] or [rediss://], and it is a fixed point: given back as
    the setting, it comes out unchanged. *)
Theorem redis_url_normal (REDIS_URL : string) :
  let url := Settings.connect_to_redis REDIS_URL in
  (Settings.startswith url "redis://" = true ∨
   Settings.startswith url "rediss://" = true) ∧
  Settings.connect_to_redis url = url.
Proof.
  unfold Settings.connect_to_redis, Settings.sanitize. cbv zeta.
  pose proof (strip_bare Settings.quotes REDIS_URL) as Hbare.
  set (s := Settings.strip Settings.quotes REDIS_URL) in *.
  destruct (Settings.startswith s "redis://") eqn:H1; simpl.
  { rewrite strip_fixed by done. rewrite H1. simpl. auto. }
  destruct (Settings.startswith s "rediss://") eqn:H2; simpl.
  { rewrite strip_fixed by done. rewrite H1, H2. simpl. auto. }
  assert (Hpre : Settings.startswith ("redis://" +:+ s) "redis://" = true)
    by apply prefix_append.
  split; [by left |].
  rewrite strip_fixed.
  - by rewrite Hpre.
  - destruct Hbare as [_ Hlast]. split.
    + intros c [= <-]. by apply not_a_quote.
    + intros c. rewrite last_char_app.
      destruct (last_char s) as [c'|] eqn:Hs.
      * intros [= <-]. by apply Hlast.
      * intros [= <-]. by apply not_a_quote.
Qed.

(** ** The recommendations route *)

(** The calls the loop makes are those of the rounds it reaches. *)
Lemma respond_calls llm uid i recs log :
  ∃ new, (Routes.respond llm uid i recs log).1 = log ++ new ∧
         length new ≤ (2 - i) `min` length recs ∧
         ((∃ items, (Routes.respond llm uid i recs log).2 = inr items) →
          length new = (2 - i) `min` length recs).
Proof.
  revert i log. induction recs as [|item recs IH]; intros i log.
  { exists []. simpl. rewrite app_nil_r. split; [done |]. split; lia. }
  simpl. destruct (Nat.ltb_spec i 2) as [Hi | Hi].
  - match goal with
    | |- context [Routes.new_RecommendationResponse item ?d] =>
        destruct (Routes.new_RecommendationResponse item d) as [e | r]
    end.
    + exists [(("User History ID: " +:+ uid)%string, rec_name item, rec_score item)].
      simpl. split; [done |]. split; [lia |]. by intros [? [=]].
    + destruct (IH (S i)
                  (log ++ [(("User History ID: " +:+ uid)%string,
                            rec_name item, rec_score item)]))
        as (new & Hlog & Hle & Heq).
      destruct (Routes.respond _ _ (S i) recs _) as [log' [e | rs]];
        simpl in *; subst log';
        eexists; (split; [by rewrite <- app_assoc |]); simpl;
        (split; [lia |]).
      * by intros [? [=]].
      * intros _. rewrite Heq by eauto. lia.
  - destruct (Routes.new_RecommendationResponse item None) as [e | r].
    + exists []. simpl. rewrite app_nil_r. split; [done |]. split; [lia |].
      by intros [? [=]].
    + destruct (IH (S i) log) as (new & Hlog & Hle & Heq).
      destruct (Routes.respond _ _ (S i) recs _) as [log' [e | rs]];
        simpl in *; subst log'; exists new; (split; [done |]);
        (split; [lia |]).
      * by intros [? [=]].
      * intros _. rewrite Heq by eauto. lia.
Qed.

(** One request to the route costs at most two calls of the language
    model, in every state of the recommender and whatever the model
    replies; the calls made before are kept as they are. *)
Theorem get_recommendations_calls L llm uid w log :
  ∃ new, (Routes.get_recommendations L llm uid w log).1.2 = log ++ new ∧
         length new ≤ 2.
Proof.
  unfold Routes.get_recommendations.
  destruct (recommend L uid 5 w) as [w' [[|rec0 recs] | e]];
    try (exists []; simpl; rewrite app_nil_r; split; [done | lia]).
  destruct (rec_name rec0);
    [| exists []; simpl; rewrite app_nil_r; split; [done | lia]].
  destruct (respond_calls llm uid 0 (rec0 :: recs) log) as (new & Hlog & Hle & _).
  destruct (Routes.respond _ _ _ _ _) as [log' outcome]. cbn [fst snd] in *.
  exists new. split; [done | lia].
Qed.

Lemma respond_raises llm uid i recs log e :
  (Routes.respond llm uid i recs log).2 = inl e → e = Routes.ValidationError.
Proof.
  revert i log. induction recs as [|item recs IH]; intros i log; [done |].
  simpl. destruct (i <? 2).
  - match goal with
    | |- context [Routes.new_RecommendationResponse item ?d] =>
        destruct (Routes.new_RecommendationResponse item d) as [e' | r] eqn:Hnew
    end.
    + simpl. intros [= <-]. revert Hnew.
      unfold Routes.new_RecommendationResponse.
      repeat case_match; congruence.
    + specialize (IH (S i)
        (log ++ [(("User History ID: " +:+ uid)%string,
                  rec_name item, rec_score item)])).
      destruct (Routes.respond _ _ (S i) recs _) as [log' [e' | rs]];
        simpl in *; [done | discriminate].
  - destruct (Routes.new_RecommendationResponse item None) as [e' | r] eqn:Hnew.
    + simpl. intros [= <-]. revert Hnew.
      unfold Routes.new_RecommendationResponse.
      repeat case_match; congruence.
    + specialize (IH (S i) log).
      destruct (Routes.respond _ _ (S i) recs _) as [log' [e' | rs]];
        simpl in *; [done | discriminate].
Qed.

Lemma new_response_ok item data :
  is_Some (rec_name item) →
  (∀ content, data ≠ Some (Routes.JsonOther content)) →
  ∃ response,
    Routes.new_RecommendationResponse item data = inr response ∧
    Routes.resp_stock_code response = rec_stock_code item ∧
    Routes.resp_score response = rec_score item ∧
    rec_name item = Some (Routes.resp_description response) ∧
    (data = None → Routes.resp_explanation response = None).
Proof.
  intros [name Hname] Hdata. unfold Routes.new_RecommendationResponse.
  rewrite Hname. destruct data as [[content | | content] |];
    try (eexists; repeat split; done).
  by destruct (Hdata content).
Qed.

Lemma respond_returns llm uid i recs log :
  Forall (fun r => is_Some (rec_name r)) recs →
  (∀ n call content, llm n call ≠ Routes.JsonOther content) →
  ∃ items,
    (Routes.respond llm uid i recs log).2 = inr items ∧
    Forall2 (fun item r =>
               Routes.resp_stock_code item = rec_stock_code r ∧
               Routes.resp_score item = rec_score r ∧
               rec_name r = Some (Routes.resp_description item)) items recs ∧
    (∀ j item, items !! j = Some item → 2 ≤ i + j →
               Routes.resp_explanation item = None).
Proof.
  intros Hnames Hllm. revert i log.
  induction Hnames as [|item recs Hname _ IH]; intros i log.
  { exists []. by repeat split. }
  simpl. destruct (Nat.ltb_spec i 2) as [Hi | Hi].
  - match goal with
    | |- context [Routes.new_RecommendationResponse item ?d] =>
        destruct (new_response_ok item d Hname)
          as (r & -> & Hcode & Hscore & Hdesc & _)
    end.
    { intros content [=]. by eapply Hllm. }
    destruct (IH (S i)
                (log ++ [(("User History ID: " +:+ uid)%string,
                          rec_name item, rec_score item)]))
      as (items & Hitems & Hall & Hlate).
    destruct (Routes.respond _ _ (S i) recs _) as [log' outcome].
    simpl in Hitems. subst outcome. exists (r :: items).
    split; [done |]. split; [by constructor |].
    intros [|j] item' Hj Hle; [lia |].
    apply (Hlate j); [done | lia].
  - destruct (new_response_ok item None Hname)
      as (r & -> & Hcode & Hscore & Hdesc & Hnone); [done |].
    destruct (IH (S i) log) as (items & Hitems & Hall & Hlate).
    destruct (Routes.respond _ _ (S i) recs _) as [log' outcome].
    simpl in Hitems. subst outcome. exists (r :: items).
    split; [done |]. split; [by constructor |].
    intros [|j] item' Hj Hle.
    + injection Hj as <-. by apply Hnone.
    + apply (Hlate j); [done | lia].
Qed.

(** After a successful build [recommend] returns for every user, and
    every item it returns has a name. *)
Lemma recommend_trained_returns L tx pr w0 w uid k :
  factor_shapes L →
  _train_sync L tx pr w0 = (w, Ok tt) →
  ∃ recs,
    recommend L uid k w = (w, Ok recs) ∧
    ((0 ≤ k)%Z → (Z.of_nat (length recs) ≤ k)%Z) ∧
    Forall (fun r => is_Some (rec_name r)) recs.
Proof.
  intros Hshape Hrun.
  pose proof (train_sync_artifact _ _ _ _ _ Hrun) as Hart.
  assert (Hinit : initialized (self w) = true)
    by (by eapply artifact_initialized).
  assert (Hnd : NoDup (_id <$> pr)).
  { eapply (train_sync_ok_well_formed L tx pr w0). by rewrite Hrun. }
  destruct (user_map (self w) !! uid) as [u|] eqn:Hu.
  - destruct (recommend_trained _ _ _ _ _ _ _ Hshape Hrun Hu)
      as (fitted & v & scores & _ & _ & _ & Hrec).
    eexists. split; [apply Hrec |]. split.
    + intros Hk. rewrite slice_to_take by done.
      pose proof (length_omap_le (recommend_row (self w) scores)
                    (take (Z.to_nat k) (reverse (argsort L scores)))) as Hle.
      rewrite length_take in Hle. lia.
    + apply Forall_forall. intros r (idx & _ & Hrow)%list_elem_of_omap.
      unfold recommend_row in Hrow.
      destruct (product_map (self w) !! idx) as [code|] eqn:Hcode; [| done].
      destruct (Py.truthy code); [| done].
      injection Hrow as <-. cbn.
      destruct (catalogue_description _ _ _ _ _ _ Hnd Hart Hcode)
        as (p & _ & _ & ->). by eauto.
  - exists []. split; [| split; [simpl; lia | constructor]].
    rewrite recommend_unfold, ensure_initialized_ready by exact Hinit.
    cbv zeta. cbn [fst]. by rewrite Hinit, Hu.
Qed.

(** The route on a successful build, with a decomposition that returns
    the documented shapes.  For every user: [recommend] returns, the
    handler leaves the recommender as it is, and the only failure left
    is a validation error, which takes a reply of the language model
    that is neither a JSON object nor null.  Without such a reply the
    handler returns one item per recommendation, in the same order, with
    its stock code and score and the product's description; at most
    five; an explanation at most on the first two; and it has called the
    language model once for each of the first two items. *)
Theorem get_recommendations_on_trained L tx pr w0 w llm uid log :
  factor_shapes L →
  _train_sync L tx pr w0 = (w, Ok tt) →
  ∃ recs log' outcome,
    recommend L uid 5 w = (w, Ok recs) ∧
    Routes.get_recommendations L llm uid w log = (w, log', outcome) ∧
    (∀ e, outcome = inl e → e = Routes.ValidationError) ∧
    ((∀ n call content, llm n call ≠ Routes.JsonOther content) →
     ∃ items,
       outcome = inr items ∧
       Forall2 (fun item r =>
                  Routes.resp_stock_code item = rec_stock_code r ∧
                  Routes.resp_score item = rec_score r ∧
                  rec_name r = Some (Routes.resp_description item)) items recs ∧
       (∀ i item, items !! i = Some item → 2 ≤ i →
                  Routes.resp_explanation item = None) ∧
       length items ≤ 5 ∧
       length log' = length log + 2 `min` length items).
Proof.
  intros Hshape Hrun.
  destruct (recommend_trained_returns L tx pr w0 w uid 5 Hshape Hrun)
    as (recs & Hrec & Hlen & Hnames).
  specialize (Hlen ltac:(lia)).
  exists recs. unfold Routes.get_recommendations. rewrite Hrec.
  destruct recs as [|rec0 recs].
  { exists log, (inr []). split; [done |]. split; [done |].
    split; [done |]. intros _. exists [].
    split; [done |]. split; [constructor |]. split; [done |].
    simpl. lia. }
  inversion Hnames as [|? ? [name Hname] Hrest]; subst.
  rewrite Hname.
  pose proof (respond_calls llm uid 0 (rec0 :: recs) log) as (new & Hlog & _ & Hnew).
  pose proof (respond_raises llm uid 0 (rec0 :: recs) log) as Hexn.
  pose proof (respond_returns llm uid 0 (rec0 :: recs) log Hnames) as Hret.
  destruct (Routes.respond llm uid 0 (rec0 :: recs) log) as [log' outcome].
  cbn [fst snd] in *. subst log'.
  exists (log ++ new), outcome. split; [done |]. split; [done |].
  split; [exact Hexn |].
  intros Hllm. destruct (Hret Hllm) as (items & -> & Hall & Hlate).
  exists items. split; [done |]. split; [done |].
  pose proof (Forall2_length _ _ _ Hall) as Hsame.
  split; [intros i item Hi Hle; by apply (Hlate i) |].
  split; [rewrite Hsame; simpl in *; lia |].
  rewrite length_app, Hnew by eauto. rewrite Hsame. simpl. lia.
Qed.

Lemma get_recommendations_on_trained_witness :
  let llm : Routes.LlmService := fun _ _ => Routes.JsonNull in
  ∃ recs log' outcome,
    recommend Sample.libs "U1" 5 Sample.trained = (Sample.trained, Ok recs) ∧
    Routes.get_recommendations Sample.libs llm "U1" Sample.trained []
      = (Sample.trained, log', outcome) ∧
    (∀ e, outcome = inl e → e = Routes.ValidationError) ∧
    ((∀ n call content, llm n call ≠ Routes.JsonOther content) →
     ∃ items,
       outcome = inr items ∧
       Forall2 (fun item r =>
                  Routes.resp_stock_code item = rec_stock_code r ∧
                  Routes.resp_score item = rec_score r ∧
                  rec_name r = Some (Routes.resp_description item)) items recs ∧
       (∀ i item, items !! i = Some item → 2 ≤ i →
                  Routes.resp_explanation item = None) ∧
       length items ≤ 5 ∧
       length log' = length (@nil Routes.Explain) + 2 `min` length items).
Proof.
  intros llm.
  exact (get_recommendations_on_trained Sample.libs _ _ _ _ llm "U1" []
           sample_factor_shapes sample_trained).
Defined.

(** Before any artifact was published the route answers the empty list
    and does not call the language model. *)
Theorem get_recommendations_before_training L llm uid w log :
  unpublished w →
  Routes.get_recommendations L llm uid w log
  = ((ensure_initialized w).1, log, inr []).
Proof.
  intros Hunp. unfold Routes.get_recommendations.
  rewrite recommend_unfold. cbv zeta.
  by rewrite (ensure_initialized_unpublished _ Hunp).
Qed.

Lemma get_recommendations_before_training_witness :
  Routes.get_recommendations Sample.libs (fun _ _ => Routes.JsonNull) "U1"
    Sample.new_world []
  = ((ensure_initialized Sample.new_world).1, [], inr []).
Proof.
  apply get_recommendations_before_training.
  split; [reflexivity | by left].
Defined.
